(** * relay-gasless-examples: the Relay API helpers and the status poller

    A shallow embedding of the three copies of [pollStatus] and of the
    HTTP helpers they sit next to:

    - [origin-subsidy/src/relay/status-poller.ts] and [api.ts]
      (module [OriginSubsidy]);
    - [byo-eoa-permit/lib/relay.ts] (module [ByoEoaPermit]);
    - the [relay.ts] script helper shared by the 4337 and 7702 command
      line examples (module [Script]).

    The code is asynchronous TypeScript that talks to a server, arms a
    timer and calls back into the user interface.  It is embedded in a
    state-and-exception monad over a [World] holding the replies the
    server is going to give, the state of the progress callback and the
    trace of what the code did (requests, callback invocations, timers,
    console lines). *)

From Stdlib Require Import ZArith List String Ascii Bool Lia DecimalString.
From Equations Require Import Equations.
Import ListNotations.

Local Open Scope string_scope.
Local Open Scope Z_scope.

Set Warnings "-register-all".

(** ** JavaScript values that travel through the helpers *)

(** What [res.json()] produces.  Numbers are kept to the integers: no
    field read by the helpers is numeric, a number only ever gets
    printed back.  An object lists its own members, each name once, in
    the order the engine enumerates them. *)
Inductive Json : Type :=
| JNull
| JBool (b : bool)
| JNum (n : Z)
| JStr (s : string)
| JArr (items : list Json)
| JObj (fields : list (string * Json)).

(** A JavaScript value as the helpers see one: [None] is [undefined]. *)
Definition JsValue := option Json.

(** What a [throw] carries.  [Error] is [new Error(message)];
    [TypeError] and [SyntaxError] are raised by the platform (a property
    read on [null], a body that is not JSON, a transport failure) and
    their wording is the engine's own. *)
Inductive Exn : Type :=
| Error (message : string)
| TypeError
| SyntaxError.

(** *** Numbers

    A JavaScript number is an IEEE 754 double.  An integer stands for
    the double nearest to it, ties going to the even significand: the
    value a numeric literal or [JSON.parse] gives.  Integers up to
    [2^53] in absolute value stand for themselves. *)
Definition to_double (n : Z) : Z :=
  let b := Z.log2 n in
  if b <? 53 then n
  else
    let sh := b - 52 in
    let q := Z.shiftr n sh in
    let r := Z.land n (Z.ones sh) in
    let half := Z.shiftl 1 (sh - 1) in
    let q' := if (half <? r) || ((r =? half) && Z.odd q) then q + 1 else q in
    Z.shiftl q' sh.

(** The decimal digits of a natural number. *)
Definition decimal (n : Z) : string := NilZero.string_of_uint (N.to_uint (Z.to_N n)).

Definition digit_count (n : Z) : Z := Z.of_nat (String.length (decimal n)).

(** The decimal with the fewest significant digits that still rounds to
    the double [x], and among those the one nearest to [x]: the digits
    [Number::toString] prints.  Seventeen digits always suffice. *)
Fixpoint shortest_from (fuel : nat) (k : Z) (x : Z) : Z :=
  match fuel with
  | O => x
  | S fuel' =>
      let e := digit_count x - k in
      if e <=? 0 then x
      else
        let p := 10 ^ e in
        let lo := (x / p) * p in
        let hi := lo + p in
        let ok_lo := to_double lo =? x in
        let ok_hi := to_double hi =? x in
        if ok_lo && ok_hi then (if x - lo <=? hi - x then lo else hi)
        else if ok_lo then lo
        else if ok_hi then hi
        else shortest_from fuel' (k + 1) x
  end.

Definition shortest (x : Z) : Z := shortest_from 17 1 x.

Fixpoint strip_zeros (rev_digits : string) : string :=
  match rev_digits with
  | String "0" rest => strip_zeros rest
  | _ => rev_digits
  end.

Fixpoint rev_string (s acc : string) : string :=
  match s with
  | EmptyString => acc
  | String c rest => rev_string rest (String c acc)
  end.

(** The digits without their trailing zeros. *)
Definition significant (digits : string) : string :=
  rev_string (strip_zeros (rev_string digits EmptyString)) EmptyString.

(** [d.ddde+N], the form of a number from [1e21] on. *)
Definition exponent_form (v : Z) : string :=
  let digits := decimal v in
  let e := decimal (digit_count v - 1) in
  match significant digits with
  | String c EmptyString => String c ("e+" ++ e)
  | String c rest => String c ("." ++ rest ++ "e+" ++ e)
  | EmptyString => digits
  end.

(** A double [x] that is a natural number, printed: all its digits up
    to [2^53]; beyond, the shortest digits that round to it, padded with
    zeros below [1e21] and in exponent form from there on; [Infinity]
    past the largest double. *)
Definition print_double (x : Z) : string :=
  if x <? 2 ^ 53 then decimal x
  else if 2 ^ 1024 <=? x then "Infinity"
  else
    let v := shortest x in
    if digit_count v <=? 21 then decimal v else exponent_form v.

(** [`${n}`] and [String(n)] for the number an integer [n] stands for. *)
Definition number_to_string (n : Z) : string :=
  if n <? 0 then "-" ++ print_double (to_double (- n))
  else print_double (to_double n).

Fixpoint join (sep : string) (parts : list string) : string :=
  match parts with
  | [] => EmptyString
  | [p] => p
  | p :: rest => p ++ sep ++ join sep rest
  end.

Fixpoint assoc (name : string) (fields : list (string * Json)) : JsValue :=
  match fields with
  | [] => None
  | (k, v) :: rest => if (k =? name)%string then Some v else assoc name rest
  end.

(** All the results of a list of conversions, when none of them
    failed. *)
Fixpoint all_some {A} (l : list (option A)) : option (list A) :=
  match l with
  | [] => Some []
  | None :: _ => None
  | Some a :: rest =>
      match all_some rest with
      | None => None
      | Some more => Some (a :: more)
      end
  end.

(** The text [String(v)] gives, [None] when the conversion throws.  An
    object is converted by its [toString] member.  The inherited one
    gives [[object Object]]; a member of its own under that name is, in
    parsed JSON, never a function, and then the conversion throws (the
    inherited [valueOf] returns the object itself, which is no
    primitive).  An array joins the conversions of its elements with
    commas, a [null] element counting as empty; an element that cannot
    be converted makes the whole conversion throw. *)
Fixpoint json_text (j : Json) : option string :=
  match j with
  | JNull => Some "null"
  | JBool true => Some "true"
  | JBool false => Some "false"
  | JNum n => Some (number_to_string n)
  | JStr s => Some s
  | JArr items =>
      match all_some (map (fun x => match x with
                                    | JNull => Some EmptyString
                                    | _ => json_text x
                                    end) items) with
      | None => None
      | Some parts => Some (join "," parts)
      end
  | JObj fields =>
      match assoc "toString" fields with
      | Some _ => None
      | None => Some "[object Object]"
      end
  end.

(** [String(v)], the conversion a template literal applies: the text,
    or the [TypeError] of a value that cannot be converted. *)
Definition json_to_string (j : Json) : Exn + string :=
  match json_text j with
  | Some s => inr s
  | None => inl TypeError
  end.

Definition to_string (v : JsValue) : Exn + string :=
  match v with
  | None => inr "undefined"
  | Some j => json_to_string j
  end.

(** Whether a value can be put in a template literal, and the text it
    gives there. *)
Definition printable (v : JsValue) : bool :=
  match to_string v with
  | inr _ => true
  | inl _ => false
  end.

Definition shown (v : JsValue) : string :=
  match to_string v with
  | inr s => s
  | inl _ => EmptyString
  end.

(** Truthiness, as [||] tests it. *)
Definition truthy (v : JsValue) : bool :=
  match v with
  | None | Some JNull => false
  | Some (JBool b) => b
  | Some (JNum n) => negb (n =? 0)
  | Some (JStr s) => negb (s =? EmptyString)%string
  | Some (JArr _) | Some (JObj _) => true
  end.

(** [j.name] for the property names the helpers read ([status],
    [message], [error], [txHashes]): an own field of an object,
    [undefined] on any other value, and a [TypeError] on [null]. *)
Definition get_prop (j : Json) (name : string) : Exn + JsValue :=
  match j with
  | JNull => inl TypeError
  | JObj fields => inr (assoc name fields)
  | _ => inr None
  end.

(** The first UTF-16 code unit of a string held as UTF-8 bytes: the
    whole first character when it takes one, two or three bytes; the
    first half of a surrogate pair when it takes four, which has no
    UTF-8 form of its own and is written out as U+FFFD. *)
Definition first_unit (s : string) : string :=
  match s with
  | EmptyString => EmptyString
  | String c rest =>
      let n := N_of_ascii c in
      if (n <? 192)%N then String c EmptyString
      else if (n <? 224)%N then String c (substring 0 1 rest)
      else if (n <? 240)%N then String c (substring 0 2 rest)
      else String (ascii_of_N 239) (String (ascii_of_N 191)
                                           (String (ascii_of_N 189) EmptyString))
  end.

(** [v?.[0]]: the first element of an array, the first code unit of a
    string, the field ["0"] of an object. *)
Definition opt_index0 (v : JsValue) : JsValue :=
  match v with
  | None | Some JNull => None
  | Some (JArr items) => hd_error items
  | Some (JStr EmptyString) => None
  | Some (JStr s) => Some (JStr (first_unit s))
  | Some (JObj fields) => assoc "0" fields
  | Some _ => None
  end.

(** [v ?? d]. *)
Definition nullish_or (v : JsValue) (d : Json) : Json :=
  match v with
  | None | Some JNull => d
  | Some j => j
  end.

(** *** JSON.stringify *)

Definition hex_digit (n : N) : ascii :=
  match n with
  | 0%N => "0" | 1%N => "1" | 2%N => "2" | 3%N => "3" | 4%N => "4"
  | 5%N => "5" | 6%N => "6" | 7%N => "7" | 8%N => "8" | 9%N => "9"
  | 10%N => "a" | 11%N => "b" | 12%N => "c" | 13%N => "d" | 14%N => "e"
  | _ => "f"
  end%char.

Definition upper_hex_digit (n : N) : ascii :=
  match n with
  | 10%N => "A" | 11%N => "B" | 12%N => "C" | 13%N => "D" | 14%N => "E"
  | 15%N => "F"
  | _ => hex_digit n
  end%char.

Definition dquote : ascii := ascii_of_N 34.
Definition backslash : ascii := ascii_of_N 92.
Definition newline : ascii := ascii_of_N 10.

Definition escape_char (c : ascii) : string :=
  let n := N_of_ascii c in
  if (n =? 34)%N then String backslash (String dquote EmptyString)
  else if (n =? 92)%N then "\\"
  else if (n =? 8)%N then "\b"
  else if (n =? 9)%N then "\t"
  else if (n =? 10)%N then "\n"
  else if (n =? 12)%N then "\f"
  else if (n =? 13)%N then "\r"
  else if (n <? 32)%N then
    "\u00" ++ String (hex_digit (n / 16)) (String (hex_digit (n mod 16)) EmptyString)
  else String c EmptyString.

Fixpoint escape (s : string) : string :=
  match s with
  | EmptyString => EmptyString
  | String c rest => escape_char c ++ escape rest
  end.

Definition quote (s : string) : string :=
  String dquote (escape s) ++ String dquote EmptyString.

Fixpoint JSON_stringify (j : Json) : string :=
  match j with
  | JNull => "null"
  | JBool true => "true"
  | JBool false => "false"
  | JNum n => number_to_string n
  | JStr s => quote s
  | JArr items => "[" ++ join "," (map JSON_stringify items) ++ "]"
  | JObj fields =>
      "{" ++ join "," (map (fun kv => quote (fst kv) ++ ":" ++ JSON_stringify (snd kv))
                           fields) ++ "}"
  end.

(** *** encodeURIComponent, on UTF-8 bytes *)

Definition uri_unreserved (c : ascii) : bool :=
  let n := N_of_ascii c in
  ((48 <=? n) && (n <=? 57) || (65 <=? n) && (n <=? 90) || (97 <=? n) && (n <=? 122))%N
  || existsb (Ascii.eqb c) (list_ascii_of_string "-_.!~*'()").

Fixpoint encodeURIComponent (s : string) : string :=
  match s with
  | EmptyString => EmptyString
  | String c rest =>
      (if uri_unreserved c then String c EmptyString
       else let n := N_of_ascii c in
            String "%"%char (String (upper_hex_digit (n / 16))
                                    (String (upper_hex_digit (n mod 16)) EmptyString)))
      ++ encodeURIComponent rest
  end.

(** [haystack.includes(needle)]. *)
Definition includes (haystack needle : string) : bool :=
  match index 0 needle haystack with
  | Some _ => true
  | None => false
  end.

(** ** The world the helpers run in *)

(** An HTTP response as [fetch] resolves it.  [ok] is the platform's
    flag (set for the statuses 200 to 299), [text] is what [res.text()]
    resolves to and [json] what [res.json()] resolves to, [None] when
    the body is not JSON and [res.json()] rejects. *)
Record Response : Type := mkResponse {
  ok : bool;
  status : Z;
  statusText : string;
  text : string;
  json : option Json
}.

(** What the code does to the outside, in program order.  A request is
    recorded with its method, URL and body; its headers are constant
    and left out. *)
Inductive Event : Type :=
| EvFetch (method url : string) (body : option string)
| EvUpdate (st : Json)
| EvSleep (ms : Z)
| EvLog (line : string).

(** [incoming n] is the reply to the [n]-th request from now, [None]
    when the transport fails and [fetch] itself rejects.  [ui] is the
    state the progress callback works on. *)
Record World (U : Type) : Type := mkWorld {
  incoming : nat -> option Response;
  trace : list Event;
  ui : U
}.
Arguments mkWorld {U}.
Arguments incoming {U}.
Arguments trace {U}.
Arguments ui {U}.

(** How an [async] function ends: its promise fulfils or rejects. *)
Inductive Result (A : Type) : Type :=
| Returned (a : A)
| Threw (e : Exn).
Arguments Returned {A}.
Arguments Threw {A}.

Definition M (U A : Type) : Type := World U -> Result A * World U.

(** A progress callback: given the status and the state of the
    interface, the new state, and the exception if it throws. *)
Definition Callback (U : Type) : Type := Json -> U -> U * option Exn.

Section Effects.
Context {U : Type}.

Definition ret {A} (a : A) : M U A := fun w => (Returned a, w).

Definition throw {A} (e : Exn) : M U A := fun w => (Threw e, w).

Definition bind {A B} (c : M U A) (k : A -> M U B) : M U B :=
  fun w =>
    match c w with
    | (Returned a, w') => k a w'
    | (Threw e, w') => (Threw e, w')
    end.

Definition lift {A} (r : Exn + A) : M U A :=
  match r with
  | inl e => throw e
  | inr a => ret a
  end.

Definition emit (e : Event) : M U unit :=
  fun w => (Returned tt, mkWorld (incoming w) (trace w ++ [e]) (ui w)).

(** [await fetch(url, { method, body })] *)
Definition fetch (method url : string) (body : option string) : M U Response :=
  fun w =>
    let w' := mkWorld (fun n => incoming w (S n))
                      (trace w ++ [EvFetch method url body]) (ui w) in
    match incoming w 0%nat with
    | Some res => (Returned res, w')
    | None => (Threw TypeError, w')
    end.

(** [await res.json()] *)
Definition res_json (res : Response) : M U Json :=
  match json res with
  | Some j => ret j
  | None => throw SyntaxError
  end.

(** [await res.json().catch(() => ({}))] *)
Definition res_json_or_empty (res : Response) : Json :=
  match json res with
  | Some j => j
  | None => JObj []
  end.

(** [await new Promise((r) => setTimeout(r, ms))] *)
Definition sleep (ms : Z) : M U unit := emit (EvSleep ms).

Definition console_log (line : string) : M U unit := emit (EvLog line).

(** [onUpdate?.(status)] *)
Definition notify (onUpdate : option (Callback U)) (st : Json) : M U unit :=
  match onUpdate with
  | None => ret tt
  | Some cb =>
      fun w =>
        let (u', thrown) := cb st (ui w) in
        let w' := mkWorld (incoming w) (trace w ++ [EvUpdate st]) u' in
        match thrown with
        | None => (Returned tt, w')
        | Some e => (Threw e, w')
        end
  end.

End Effects.

Notation "x <- c ;; k" := (bind c (fun x => k))
  (at level 61, c at next level, right associativity).
Notation "c ;;; k" := (bind c (fun _ => k))
  (at level 61, right associativity).

(** [set.has(v)] for a [Set] of strings. *)
Definition set_has (set : list string) (v : JsValue) : bool :=
  match v with
  | Some (JStr s) => existsb (String.eqb s) set
  | _ => false
  end.

(** [v === "literal"] *)
Definition strict_eq (v : JsValue) (literal : string) : bool :=
  match v with
  | Some (JStr s) => (s =? literal)%string
  | _ => false
  end.

(** A parameter with a default value: [None] is an omitted argument. *)
Definition or_default (arg : option Z) (default : Z) : Z :=
  match arg with
  | Some v => v
  | None => default
  end.

(** ** The poller of the two web applications

    [origin-subsidy/src/relay/status-poller.ts] and
    [byo-eoa-permit/lib/relay.ts] hold the same loop, line for line,
    over their own terminal set, their own [getStatus] and their own
    timeout message:

<<
  for (let i = 0; i < maxAttempts; i++) {
    const status = await getStatus(requestId);
    onUpdate?.(status);
    if (TERMINAL.has(status.status)) return status;
    await new Promise((r) => setTimeout(r, intervalMs));
  }
  throw new Error(`... after ${maxAttempts} attempts`);
>>
    [maxAttempts] and [intervalMs] are counts and milliseconds: they
    are taken in [Z], negative values included.  The loop is defined by
    recursion on the attempts left, [maxAttempts - i], so it is total:
    every run ends, by a [return] or by a [throw]. *)
Section Poller.
Context {U : Type}.
Variable TERMINAL : list string.
Variable getStatus : string -> M U Json.
Variable timed_out : Z -> string.

Variable requestId : string.
Variable onUpdate : option (Callback U).
Variables maxAttempts intervalMs : Z.

Equations? poll_from (i : Z) : M U Json by wf (Z.to_nat (maxAttempts - i)) lt :=
  poll_from i with Z_lt_dec i maxAttempts := {
    | left _ =>
        st <- getStatus requestId ;;
        notify onUpdate st ;;;
        s <- lift (get_prop st "status") ;;
        if set_has TERMINAL s then ret st
        else sleep intervalMs ;;; poll_from (i + 1)
    | right _ => throw (Error (timed_out maxAttempts)) }.
Proof. lia. Qed.

Definition poll : M U Json := poll_from 0.

End Poller.

Definition RELAY_API_URL : string := "https://api.relay.link".

(** ** origin-subsidy: [src/relay/api.ts] and [src/relay/status-poller.ts] *)
Module OriginSubsidy.
Section WithUi.
Context {U : Type}.

Definition getQuote (params : Json) : M U Json :=
  res <- fetch "POST" (RELAY_API_URL ++ "/quote/v2") (Some (JSON_stringify params)) ;;
  if negb (ok res) then
    let err := res_json_or_empty res in
    throw (Error ("Quote failed (" ++ number_to_string (status res) ++ "): "
                  ++ JSON_stringify err))
  else res_json res.

Definition execute (params : Json) : M U Json :=
  res <- fetch "POST" (RELAY_API_URL ++ "/execute") (Some (JSON_stringify params)) ;;
  if negb (ok res) then
    let err := res_json_or_empty res in
    throw (Error ("Execute failed (" ++ number_to_string (status res) ++ "): "
                  ++ JSON_stringify err))
  else res_json res.

Definition getStatus (requestId : string) : M U Json :=
  res <- fetch "GET" (RELAY_API_URL ++ "/intents/status/v3?requestId="
                      ++ encodeURIComponent requestId) None ;;
  if negb (ok res) then
    let err := res_json_or_empty res in
    throw (Error ("Status check failed (" ++ number_to_string (status res) ++ "): "
                  ++ JSON_stringify err))
  else res_json res.

Definition TERMINAL : list string := ["success"; "failure"; "refund"].

Definition timed_out (maxAttempts : Z) : string :=
  "Timed out after " ++ number_to_string maxAttempts ++ " attempts".

(** [pollStatus(requestId, onUpdate?, maxAttempts = 60, intervalMs = 5000)] *)
Definition pollStatus (requestId : string) (onUpdate : option (Callback U))
    (maxAttempts intervalMs : option Z) : M U Json :=
  poll TERMINAL getStatus timed_out requestId onUpdate
       (or_default maxAttempts 60) (or_default intervalMs 5000).

End WithUi.
End OriginSubsidy.


(** ** byo-eoa-permit: [lib/relay.ts] *)
Module ByoEoaPermit.
Section WithUi.
Context {U : Type}.

(** [err.message || err.error || JSON.stringify(err) || res.statusText],
    as the template literal prints it. *)
Definition error_text (err : Json) (res : Response) : Exn + string :=
  match get_prop err "message" with
  | inl e => inl e
  | inr message =>
      if truthy message then to_string message
      else
        match get_prop err "error" with
        | inl e => inl e
        | inr error =>
            if truthy error then to_string error
            else
              let s := JSON_stringify err in
              if negb (s =? EmptyString)%string then inr s
              else inr (statusText res)
        end
  end.

Definition getQuote (params : Json) : M U Json :=
  res <- fetch "POST" (RELAY_API_URL ++ "/quote/v2") (Some (JSON_stringify params)) ;;
  if negb (ok res) then
    let err := res_json_or_empty res in
    msg <- lift (error_text err res) ;;
    throw (Error ("Quote failed (" ++ number_to_string (status res) ++ "): " ++ msg))
  else res_json res.

Definition postSignature (endpoint signature : string) (body : Json) : M U Json :=
  let url := if prefix "http" endpoint then endpoint
             else RELAY_API_URL ++ endpoint in
  let separator := if includes url "?" then "&" else "?" in
  let fullUrl := url ++ separator ++ "signature=" ++ signature in
  res <- fetch "POST" fullUrl (Some (JSON_stringify body)) ;;
  if negb (ok res) then
    let err := res_json_or_empty res in
    msg <- lift (error_text err res) ;;
    throw (Error ("Signature submission failed (" ++ number_to_string (status res)
                  ++ "): " ++ msg))
  else res_json res.

Definition getStatus (requestId : string) : M U Json :=
  res <- fetch "GET" (RELAY_API_URL ++ "/intents/status/v3?requestId="
                      ++ encodeURIComponent requestId) None ;;
  if negb (ok res) then
    let err := res_json_or_empty res in
    throw (Error ("Status check failed (" ++ number_to_string (status res) ++ "): "
                  ++ JSON_stringify err))
  else res_json res.

Definition TERMINAL_STATES : list string := ["success"; "failure"; "refunded"].

Definition timed_out (maxAttempts : Z) : string :=
  "Polling timed out after " ++ number_to_string maxAttempts ++ " attempts".

(** [pollStatus(requestId, onUpdate?, maxAttempts = 100, intervalMs = 3000)] *)
Definition pollStatus (requestId : string) (onUpdate : option (Callback U))
    (maxAttempts intervalMs : option Z) : M U Json :=
  poll TERMINAL_STATES getStatus timed_out requestId onUpdate
       (or_default maxAttempts 100) (or_default intervalMs 3000).

End WithUi.
End ByoEoaPermit.

(** ** The command line examples: [relay.ts] of 4337-gasless and
    7702-batch-executor *)
Module Script.
Section WithEnv.
Context {U : Type}.

(** [process.env.RELAY_API_URL] *)
Variable env_RELAY_API_URL : option string.

Definition RELAY_API : string :=
  match env_RELAY_API_URL with
  | Some url => if (url =? EmptyString)%string then "https://api.relay.link" else url
  | None => "https://api.relay.link"
  end.

Definition relayFetch (path : string) (body : Json) : M U Json :=
  res <- fetch "POST" (RELAY_API ++ path) (Some (JSON_stringify body)) ;;
  if negb (ok res) then
    let error := text res in
    throw (Error (path ++ " failed (" ++ number_to_string (status res) ++ "): " ++ error))
  else res_json res.

Variable requestId : string.

#[local] Obligation Tactic := idtac.

(** The loop of [pollStatus]; [status.status] is read once, on parsed
    data every later read gives the same value. *)
Equations? poll_from (i : Z) : M U unit by wf (Z.to_nat (60 - i)) lt :=
  poll_from i with Z_lt_dec i 60 := {
    | left _ =>
        res <- fetch "GET" (RELAY_API ++ "/intents/status/v3?requestId=" ++ requestId)
                     None ;;
        st <- res_json res ;;
        s <- lift (get_prop st "status") ;;
        shown <- lift (to_string s) ;;
        console_log ("  [" ++ number_to_string (i + 1) ++ "] " ++ shown) ;;;
        if strict_eq s "success" then
          tx <- lift (get_prop st "txHashes") ;;
          hash <- lift (json_to_string (nullish_or (opt_index0 tx) (JStr "N/A"))) ;;
          console_log ("  Tx: " ++ hash)
        else if strict_eq s "failure" || strict_eq s "refund" then
          failed <- lift (to_string s) ;;
          throw (Error ("Relay failed: " ++ failed))
        else sleep 5000 ;;; poll_from (i + 1)
    | right _ => throw (Error "Polling timed out") }.
Proof. lia. Qed.

Definition pollStatus : M U unit :=
  console_log (String newline ("Polling request " ++ requestId ++ "...")) ;;;
  poll_from 0.

End WithEnv.
End Script.

(** ** Reading a run *)

Local Open Scope list_scope.

Definition is_fetch (e : Event) : bool :=
  match e with
  | EvFetch _ _ _ => true
  | _ => false
  end.

(** How many requests a trace holds, the timers it armed and the
    statuses it handed to the progress callback, in order. *)
Definition fetch_count (tr : list Event) : nat := List.length (filter is_fetch tr).

Definition sleep_log (tr : list Event) : list Z :=
  flat_map (fun e => match e with EvSleep ms => [ms] | _ => [] end) tr.

Definition update_log (tr : list Event) : list Json :=
  flat_map (fun e => match e with EvUpdate j => [j] | _ => [] end) tr.

(** The requests and the calls of the progress callback of a trace, in
    order. *)
Definition is_call (e : Event) : bool :=
  match e with
  | EvFetch _ _ _ | EvUpdate _ => true
  | _ => false
  end.

Definition calls (tr : list Event) : list Event := filter is_call tr.

(** The requests and the timers of a trace, in order. *)
Inductive Beat : Type :=
| asked
| slept (ms : Z).

Definition beats (tr : list Event) : list Beat :=
  flat_map (fun e => match e with
                     | EvFetch _ _ _ => [asked]
                     | EvSleep ms => [slept ms]
                     | _ => []
                     end) tr.

(** [m] requests, each followed by one timer of [ms]. *)
Fixpoint rhythm (ms : Z) (m : nat) : list Beat :=
  match m with
  | O => []
  | S k => asked :: slept ms :: rhythm ms k
  end.

(** The timers armed before the first request, and after each request
    up to the next one or to the end. *)
Fixpoint split_waits (bs : list Beat) : list Z * list (list Z) :=
  match bs with
  | [] => ([], [])
  | asked :: rest => let (lead, after) := split_waits rest in ([], lead :: after)
  | slept ms :: rest => let (lead, after) := split_waits rest in (ms :: lead, after)
  end.

(** The timers armed between one request and the next: one list for
    each pair of consecutive requests. *)
Definition between_attempts (tr : list Event) : list (list Z) :=
  removelast (snd (split_waits (beats tr))).

(** What [getStatus] of the web applications makes of a reply: the
    parsed body of an ok response. *)
Definition answer (reply : option Response) : option Json :=
  match reply with
  | Some res => if ok res then json res else None
  | None => None
  end.

(** What the script makes of a reply: it never looks at [res.ok]. *)
Definition parsed (reply : option Response) : option Json :=
  match reply with
  | Some res => json res
  | None => None
  end.

(** The next replies of the server carry the statuses [sts], as read by
    [read]. *)
Definition serves {U} (read : option Response -> option Json)
    (w : World U) (sts : list Json) : Prop :=
  forall n j, nth_error sts n = Some j -> read (incoming w n) = Some j.

(** The statuses the first [n] replies carry. *)
Definition fetched (read : option Response -> option Json)
    (inc : nat -> option Response) (n : nat) : list Json :=
  flat_map (fun k => match read (inc k) with Some j => [j] | None => [] end) (seq 0 n).

Definition is_terminal (set : list string) (j : Json) : bool :=
  match get_prop j "status" with
  | inr v => set_has set v
  | inl _ => false
  end.

Definition is_pending (set : list string) (j : Json) : bool :=
  match get_prop j "status" with
  | inr v => negb (set_has set v)
  | inl _ => false
  end.

(** Running the callback over successive statuses: the state it ends
    in, and the exception of the first invocation that throws. *)
Fixpoint feed {U} (onUpdate : option (Callback U)) (u : U) (sts : list Json)
    : U * option Exn :=
  match sts, onUpdate with
  | j :: rest, Some cb =>
      let (u', thrown) := cb j u in
      match thrown with
      | None => feed onUpdate u' rest
      | Some e => (u', Some e)
      end
  | _, _ => (u, None)
  end.

Definition status_url (requestId : string) : string :=
  (RELAY_API_URL ++ "/intents/status/v3?requestId=" ++ encodeURIComponent requestId)%string.

Definition request (requestId : string) : Event :=
  EvFetch "GET" (status_url requestId) None.

Definition notice {U} (onUpdate : option (Callback U)) (j : Json) : list Event :=
  match onUpdate with
  | Some _ => [EvUpdate j]
  | None => []
  end.

(** The events of one attempt that ends in a sleep, and of one that
    ends the run. *)
Definition round {U} (requestId : string) (onUpdate : option (Callback U))
    (intervalMs : Z) (j : Json) : list Event :=
  request requestId :: notice onUpdate j ++ [EvSleep intervalMs].

Definition last_round {U} (requestId : string) (onUpdate : option (Callback U))
    (j : Json) : list Event :=
  request requestId :: notice onUpdate j.

(** *** Bookkeeping on traces *)

Lemma fetch_count_app tr1 tr2 :
  fetch_count (tr1 ++ tr2) = (fetch_count tr1 + fetch_count tr2)%nat.
Proof. unfold fetch_count. now rewrite filter_app, length_app. Qed.

Lemma sleep_log_app tr1 tr2 : sleep_log (tr1 ++ tr2) = sleep_log tr1 ++ sleep_log tr2.
Proof. apply flat_map_app. Qed.

Lemma update_log_app tr1 tr2 : update_log (tr1 ++ tr2) = update_log tr1 ++ update_log tr2.
Proof. apply flat_map_app. Qed.

Lemma fetched_S read inc n :
  fetched read inc (S n) =
  match read (inc 0%nat) with Some j => [j] | None => [] end
  ++ fetched read (fun k => inc (S k)) n.
Proof.
  unfold fetched. cbn [seq flat_map]. f_equal.
  rewrite <- seq_shift, flat_map_concat_map, map_map, <- flat_map_concat_map.
  reflexivity.
Qed.

Lemma fetched_serves {U} read (w : World U) sts :
  serves read w sts -> fetched read (incoming w) (List.length sts) = sts.
Proof.
  revert w. induction sts as [|j rest IH]; intros w Hs; [reflexivity|].
  cbn [List.length]. rewrite fetched_S, (Hs 0%nat j eq_refl). cbn [app]. f_equal.
  apply (IH (mkWorld (fun k => incoming w (S k)) (trace w) (ui w))).
  intros n j' Hn. exact (Hs (S n) j' Hn).
Qed.

Lemma serves_tail {U} read (w w' : World U) j rest :
  serves read w (j :: rest) ->
  (forall n, incoming w' n = incoming w (S n)) ->
  serves read w' rest.
Proof. intros Hs Hinc n j' Hn. rewrite Hinc. exact (Hs (S n) j' Hn). Qed.

Lemma round_fetch_count {U} rid (cb : option (Callback U)) iv sts :
  fetch_count (flat_map (round rid cb iv) sts) = List.length sts.
Proof.
  induction sts as [|j rest IH]; [reflexivity|].
  cbn [flat_map]. rewrite fetch_count_app, IH.
  destruct cb; reflexivity.
Qed.

Lemma round_sleep_log {U} rid (cb : option (Callback U)) iv sts :
  sleep_log (flat_map (round rid cb iv) sts) = repeat iv (List.length sts).
Proof.
  induction sts as [|j rest IH]; [reflexivity|].
  cbn [flat_map]. rewrite sleep_log_app, IH.
  destruct cb; reflexivity.
Qed.

Lemma round_update_log {U} rid (cb : Callback U) iv sts :
  update_log (flat_map (round rid (Some cb) iv) sts) = sts.
Proof.
  induction sts as [|j rest IH]; [reflexivity|].
  cbn [flat_map]. rewrite update_log_app, IH. reflexivity.
Qed.

(** ** The loop of the web applications, one attempt at a time *)

(** The world once the status request has gone out. *)
Definition sent {U} (requestId : string) (w : World U) : World U :=
  mkWorld (fun n => incoming w (S n)) (trace w ++ [request requestId]) (ui w).

Section PollerFacts.
Context {U : Type}.
Variable TERMINAL : list string.
Variable getStatus : string -> M U Json.
Variable timed_out : Z -> string.

Hypothesis getStatus_answer : forall rid w j,
  answer (incoming w 0%nat) = Some j ->
  getStatus rid w = (Returned j, sent rid w).
Hypothesis getStatus_fails : forall rid w,
  answer (incoming w 0%nat) = None ->
  exists e, getStatus rid w = (Threw e, sent rid w).

Variable requestId : string.
Variable onUpdate : option (Callback U).
Variables maxAttempts intervalMs : Z.

Local Abbreviation loop := (poll_from TERMINAL getStatus timed_out requestId onUpdate
                            maxAttempts intervalMs).

Lemma loop_unfold i :
  loop i =
  if i <? maxAttempts then
    st <- getStatus requestId ;;
    notify onUpdate st ;;;
    s <- lift (get_prop st "status") ;;
    if set_has TERMINAL s then ret st
    else sleep intervalMs ;;; loop (i + 1)
  else throw (Error (timed_out maxAttempts)).
Proof.
  rewrite poll_from_equation_1.
  destruct (Z_lt_dec i maxAttempts) as [Hlt|Hge], (Z.ltb_spec i maxAttempts);
    try lia; reflexivity.
Qed.

Lemma loop_timeout i w :
  maxAttempts <= i -> loop i w = (Threw (Error (timed_out maxAttempts)), w).
Proof.
  intros Hi. rewrite loop_unfold.
  destruct (Z.ltb_spec i maxAttempts); [lia | reflexivity].
Qed.

(** An attempt that fetches a status outside the terminal set, with a
    callback that returns: sleep, then the next attempt. *)
Lemma loop_pending i w j u' :
  i < maxAttempts ->
  answer (incoming w 0%nat) = Some j ->
  is_pending TERMINAL j = true ->
  feed onUpdate (ui w) [j] = (u', None) ->
  loop i w =
  loop (i + 1) (mkWorld (fun n => incoming w (S n))
                        (trace w ++ round requestId onUpdate intervalMs j) u').
Proof.
  intros Hi Hans Hpend Hfeed. rewrite loop_unfold.
  destruct (Z.ltb_spec i maxAttempts); [|lia].
  unfold bind at 1. rewrite (getStatus_answer _ _ _ Hans).
  unfold is_pending in Hpend.
  destruct (get_prop j "status") as [|s] eqn:Hprop; [discriminate|].
  apply negb_true_iff in Hpend.
  unfold round, notice. cbn [feed] in Hfeed.
  destruct onUpdate as [cb|].
  - unfold bind, notify, sent. cbn [ui trace incoming].
    destruct (cb j (ui w)) as [u1 [e|]]; [discriminate|].
    injection Hfeed as ->.
    cbn [lift ret]. rewrite Hpend.
    unfold sleep, emit. cbn [ui trace incoming].
    rewrite <- !app_assoc. reflexivity.
  - injection Hfeed as <-.
    unfold bind, notify, ret, sent. cbn [lift ret]. rewrite Hpend.
    unfold sleep, emit. cbn [ui trace incoming].
    rewrite <- !app_assoc. reflexivity.
Qed.

(** An attempt that fetches a terminal status: the status is
    returned, nothing is armed. *)
Lemma loop_terminal i w j u' :
  i < maxAttempts ->
  answer (incoming w 0%nat) = Some j ->
  is_terminal TERMINAL j = true ->
  feed onUpdate (ui w) [j] = (u', None) ->
  loop i w =
  (Returned j, mkWorld (fun n => incoming w (S n))
                       (trace w ++ last_round requestId onUpdate j) u').
Proof.
  intros Hi Hans Hterm Hfeed. rewrite loop_unfold.
  destruct (Z.ltb_spec i maxAttempts); [|lia].
  unfold bind at 1. rewrite (getStatus_answer _ _ _ Hans).
  unfold is_terminal in Hterm.
  destruct (get_prop j "status") as [|s] eqn:Hprop; [discriminate|].
  unfold last_round, notice. cbn [feed] in Hfeed.
  destruct onUpdate as [cb|].
  - unfold bind, notify, sent. cbn [ui trace incoming].
    destruct (cb j (ui w)) as [u1 [e|]]; [discriminate|].
    injection Hfeed as ->.
    cbn [lift ret]. rewrite Hterm.
    rewrite <- !app_assoc. reflexivity.
  - injection Hfeed as <-.
    unfold bind, notify, ret, sent. cbn [lift ret]. rewrite Hterm.
    reflexivity.
Qed.

(** An attempt on which the callback throws: the exception leaves the
    loop. *)
Lemma loop_callback_throws i w j cb u' e :
  i < maxAttempts ->
  answer (incoming w 0%nat) = Some j ->
  onUpdate = Some cb ->
  cb j (ui w) = (u', Some e) ->
  loop i w =
  (Threw e, mkWorld (fun n => incoming w (S n))
                    (trace w ++ [request requestId; EvUpdate j]) u').
Proof.
  intros Hi Hans Hcb Hthrow. rewrite loop_unfold.
  destruct (Z.ltb_spec i maxAttempts); [|lia].
  unfold bind at 1. rewrite (getStatus_answer _ _ _ Hans).
  rewrite Hcb. unfold bind, notify, sent. cbn [ui trace incoming].
  rewrite Hthrow. rewrite <- !app_assoc. reflexivity.
Qed.

(** Attempts over a run of non-terminal statuses. *)
Lemma loop_rounds sts : forall i w u',
  i + Z.of_nat (List.length sts) <= maxAttempts ->
  serves answer w sts ->
  Forall (fun j => is_pending TERMINAL j = true) sts ->
  feed onUpdate (ui w) sts = (u', None) ->
  loop i w =
  loop (i + Z.of_nat (List.length sts))
       (mkWorld (fun n => incoming w (List.length sts + n)%nat)
                (trace w ++ flat_map (round requestId onUpdate intervalMs) sts) u').
Proof.
  induction sts as [|j rest IH]; intros i w u' Hi Hs Hpend Hfeed.
  - cbn in Hfeed. injection Hfeed as <-.
    cbn [List.length flat_map Nat.add]. rewrite app_nil_r, Z.add_0_r.
    destruct w; reflexivity.
  - inversion Hpend as [|? ? Hj Hrest]; subst.
    assert (Hstep : exists u1, feed onUpdate (ui w) [j] = (u1, None)
                               /\ feed onUpdate u1 rest = (u', None)).
    { cbn [feed] in *. destruct onUpdate as [cb|].
      - destruct (cb j (ui w)) as [u1 [e|]]; [discriminate|]. eauto.
      - exists (ui w). split; [reflexivity|]. destruct rest; exact Hfeed. }
    destruct Hstep as (u1 & Hone & Hmore).
    cbn [List.length] in Hi.
    rewrite (loop_pending i w j u1) by (try lia; auto; exact (Hs 0%nat j eq_refl)).
    rewrite (IH (i + 1) _ u'); cbn [ui trace incoming]; try assumption; try lia.
    + cbn [List.length flat_map]. rewrite <- app_assoc.
      replace (i + 1 + Z.of_nat (List.length rest))
        with (i + Z.of_nat (S (List.length rest))) by lia.
      reflexivity.
    + eapply serves_tail; [exact Hs | reflexivity].
Qed.

(** *** What holds of every run, however it ends *)

Lemma notify_world j (w : World U) :
  incoming (snd (notify onUpdate j w)) = incoming w
  /\ trace (snd (notify onUpdate j w)) = trace w ++ notice onUpdate j.
Proof.
  unfold notify, notice. destruct onUpdate as [cb|]; cbn.
  - destruct (cb j (ui w)) as [u1 [e|]]; cbn; auto.
  - now rewrite app_nil_r.
Qed.

(** The trace only grows; there are at most as many requests as
    attempts left; every timer armed is [intervalMs]; the callback,
    when there is one, got exactly the statuses fetched, in order; a
    status that is returned is terminal. *)
Definition run_shape (i : Z) (w : World U) (out : Result Json * World U) : Prop :=
  exists added,
    trace (snd out) = trace w ++ added
    /\ Z.of_nat (fetch_count added) <= Z.max 0 (maxAttempts - i)
    /\ (exists m, sleep_log added = repeat intervalMs m)
    /\ update_log added =
       match onUpdate with
       | Some _ => fetched answer (incoming w) (fetch_count added)
       | None => []
       end
    /\ (forall j, fst out = Returned j -> is_terminal TERMINAL j = true).

Lemma update_log_notice j :
  update_log (notice onUpdate j) =
  match onUpdate with Some _ => [j] | None => [] end.
Proof. unfold notice. destruct onUpdate; reflexivity. Qed.

Lemma fetch_count_notice j : fetch_count (notice onUpdate j) = 0%nat.
Proof. unfold notice. destruct onUpdate; reflexivity. Qed.

Lemma sleep_log_notice j : sleep_log (notice onUpdate j) = [].
Proof. unfold notice. destruct onUpdate; reflexivity. Qed.

(** A run that stops on the attempt it is making. *)
Lemma shape_of_last_attempt i w out j :
  i < maxAttempts ->
  answer (incoming w 0%nat) = Some j ->
  trace (snd out) = trace w ++ last_round requestId onUpdate j ->
  (forall j', fst out = Returned j' -> is_terminal TERMINAL j' = true) ->
  run_shape i w out.
Proof.
  intros Hi Hans Htr Hret. exists (last_round requestId onUpdate j).
  assert (Hcount : fetch_count (last_round requestId onUpdate j) = 1%nat).
  { unfold last_round.
    change (fetch_count (request requestId :: notice onUpdate j))
      with (S (fetch_count (notice onUpdate j))).
    now rewrite fetch_count_notice. }
  rewrite Hcount. repeat split; auto.
  - lia.
  - exists 0%nat. cbn. apply sleep_log_notice.
  - unfold last_round. cbn [update_log flat_map app].
    fold (update_log (notice onUpdate j)).
    rewrite update_log_notice, fetched_S, Hans.
    destruct onUpdate; reflexivity.
Qed.

Lemma loop_shape n : forall i w,
  Z.to_nat (maxAttempts - i) = n -> run_shape i w (loop i w).
Proof.
  induction n as [|n IH]; intros i w Hn.
  - rewrite loop_timeout by lia. exists []. cbn [snd fst].
    rewrite app_nil_r. repeat split.
    + cbn. lia.
    + now exists 0%nat.
    + destruct onUpdate; reflexivity.
    + discriminate.
  - rewrite loop_unfold. destruct (Z.ltb_spec i maxAttempts); [|lia].
    unfold bind at 1.
    destruct (answer (incoming w 0%nat)) as [j|] eqn:Hans.
    2:{ destruct (getStatus_fails requestId w Hans) as [e ->].
        exists [request requestId]. cbn [snd fst sent trace]. repeat split.
        - change (fetch_count [request requestId]) with 1%nat. lia.
        - now exists 0%nat.
        - change (fetch_count [request requestId]) with 1%nat.
          rewrite fetched_S, Hans. destruct onUpdate; reflexivity.
        - discriminate. }
    rewrite (getStatus_answer _ _ _ Hans).
    unfold bind at 1.
    destruct (notify_world j (sent requestId w)) as [Hinc Htr].
    destruct (notify onUpdate j (sent requestId w)) as [[[]|e] w1] eqn:Hnot;
      cbn [snd] in Hinc, Htr; cbn [sent trace incoming] in Hinc, Htr.
    2:{ apply (shape_of_last_attempt i w _ j); auto; cbn [snd fst].
        - rewrite Htr, <- app_assoc. reflexivity.
        - discriminate. }
    unfold bind at 1.
    destruct (get_prop j "status") as [e|s] eqn:Hprop; cbn [lift throw ret].
    { apply (shape_of_last_attempt i w _ j); auto; cbn [snd fst].
      - rewrite Htr, <- app_assoc. reflexivity.
      - discriminate. }
    destruct (set_has TERMINAL s) eqn:Hset.
    { apply (shape_of_last_attempt i w _ j); auto; cbn [snd fst ret].
      - rewrite Htr, <- app_assoc. reflexivity.
      - intros j' [= <-]. unfold is_terminal. now rewrite Hprop. }
    unfold bind, sleep, emit.
    match goal with |- run_shape _ _ (loop _ ?w2) =>
      destruct (IH (i + 1) w2 ltac:(lia))
        as (added & Hadd & Hcount & [m Hm] & Hupd & Hret)
    end.
    cbn [trace incoming] in Hupd. rewrite Hinc in Hupd.
    assert (Hfc : fetch_count (round requestId onUpdate intervalMs j ++ added)
                  = S (fetch_count added)).
    { unfold round.
      change (fetch_count ((request requestId :: notice onUpdate j ++ [EvSleep intervalMs])
                           ++ added))
        with (S (fetch_count ((notice onUpdate j ++ [EvSleep intervalMs]) ++ added))).
      rewrite !fetch_count_app, fetch_count_notice. reflexivity. }
    exists (round requestId onUpdate intervalMs j ++ added). rewrite Hfc.
    repeat split.
    + rewrite Hadd. cbn [trace]. rewrite Htr. unfold round.
      rewrite <- !app_assoc. cbn [app]. rewrite <- ?app_assoc. reflexivity.
    + lia.
    + exists (S m). unfold round.
      change (sleep_log ((request requestId :: notice onUpdate j ++ [EvSleep intervalMs])
                         ++ added))
        with (sleep_log ((notice onUpdate j ++ [EvSleep intervalMs]) ++ added)).
      rewrite !sleep_log_app, sleep_log_notice, Hm. reflexivity.
    + unfold round.
      change (update_log ((request requestId :: notice onUpdate j ++ [EvSleep intervalMs])
                          ++ added))
        with (update_log ((notice onUpdate j ++ [EvSleep intervalMs]) ++ added)).
      rewrite !update_log_app, update_log_notice, Hupd, fetched_S, Hans.
      destruct onUpdate; reflexivity.
    + exact Hret.
Qed.

End PollerFacts.

(** ** The two web applications, side by side *)

Inductive WebApp : Type := origin_subsidy | byo_eoa_permit.

Definition terminal_set (app : WebApp) : list string :=
  match app with
  | origin_subsidy => OriginSubsidy.TERMINAL
  | byo_eoa_permit => ByoEoaPermit.TERMINAL_STATES
  end.

Definition timeout_message (app : WebApp) : Z -> string :=
  match app with
  | origin_subsidy => OriginSubsidy.timed_out
  | byo_eoa_permit => ByoEoaPermit.timed_out
  end.

Definition getStatus_of {U} (app : WebApp) : string -> M U Json :=
  match app with
  | origin_subsidy => OriginSubsidy.getStatus
  | byo_eoa_permit => ByoEoaPermit.getStatus
  end.

Definition pollStatus_of {U} (app : WebApp)
    : string -> option (Callback U) -> option Z -> option Z -> M U Json :=
  match app with
  | origin_subsidy => OriginSubsidy.pollStatus
  | byo_eoa_permit => ByoEoaPermit.pollStatus
  end.

(** The values [maxAttempts] and [intervalMs] take when the caller
    leaves them out, read off the two signatures. *)
Definition default_maxAttempts (app : WebApp) : Z :=
  match app with
  | origin_subsidy => 60
  | byo_eoa_permit => 100
  end.

Definition default_intervalMs (app : WebApp) : Z :=
  match app with
  | origin_subsidy => 5000
  | byo_eoa_permit => 3000
  end.

(** The [for] loop of [pollStatus], entered at [i]. *)
Definition attempts_from {U} (app : WebApp) (requestId : string)
    (onUpdate : option (Callback U)) (maxAttempts intervalMs : Z) (i : Z) : M U Json :=
  poll_from (terminal_set app) (getStatus_of app) (timeout_message app)
            requestId onUpdate maxAttempts intervalMs i.

Lemma pollStatus_of_unfold {U} app rid (cb : option (Callback U)) maxAttempts intervalMs :
  pollStatus_of app rid cb maxAttempts intervalMs =
  attempts_from app rid cb (or_default maxAttempts (default_maxAttempts app))
                (or_default intervalMs (default_intervalMs app)) 0.
Proof. destruct app; reflexivity. Qed.

Lemma getStatus_of_answer {U} app rid (w : World U) j :
  answer (incoming w 0%nat) = Some j ->
  getStatus_of app rid w = (Returned j, sent rid w).
Proof.
  unfold answer. intros Hans.
  destruct (incoming w 0%nat) as [res|] eqn:Hinc; [|discriminate].
  destruct (ok res) eqn:Hok; [|discriminate].
  destruct app; cbn [getStatus_of];
    unfold OriginSubsidy.getStatus, ByoEoaPermit.getStatus, bind, fetch;
    rewrite Hinc, Hok; cbn [negb]; unfold res_json; rewrite Hans; reflexivity.
Qed.

Lemma getStatus_of_fails {U} app rid (w : World U) :
  answer (incoming w 0%nat) = None ->
  exists e, getStatus_of app rid w = (Threw e, sent rid w).
Proof.
  unfold answer. intros Hans.
  destruct (incoming w 0%nat) as [res|] eqn:Hinc.
  - destruct (ok res) eqn:Hok.
    + exists SyntaxError.
      destruct app; cbn [getStatus_of];
        unfold OriginSubsidy.getStatus, ByoEoaPermit.getStatus, bind, fetch;
        rewrite Hinc, Hok; cbn [negb]; unfold res_json; rewrite Hans; reflexivity.
    + eexists.
      destruct app; cbn [getStatus_of];
        unfold OriginSubsidy.getStatus, ByoEoaPermit.getStatus, bind, fetch;
        rewrite Hinc, Hok; cbn [negb]; reflexivity.
  - exists TypeError.
    destruct app; cbn [getStatus_of];
      unfold OriginSubsidy.getStatus, ByoEoaPermit.getStatus, bind, fetch;
      rewrite Hinc; reflexivity.
Qed.

(** ** The loop of the script, one attempt at a time *)

(** The statuses on which the script stops polling. *)
Definition script_terminal : list string := ["success"; "failure"; "refund"].

Definition status_value (j : Json) : JsValue :=
  match get_prop j "status" with
  | inr v => v
  | inl _ => None
  end.

(** [status.txHashes?.[0] ?? "N/A"] *)
Definition tx_value (j : Json) : Json :=
  nullish_or (opt_index0 (match get_prop j "txHashes" with
                          | inr v => v
                          | inl _ => None
                          end)) (JStr "N/A").

Lemma to_string_printable v : printable v = true -> to_string v = inr (shown v).
Proof. unfold printable, shown. destruct (to_string v); [discriminate | reflexivity]. Qed.

Lemma to_string_unprintable v : printable v = false -> to_string v = inl TypeError.
Proof.
  unfold printable. destruct v as [j|]; cbn [to_string]; [|discriminate].
  unfold json_to_string. destruct (json_text j); [discriminate | reflexivity].
Qed.

Lemma strict_eq_string v lit : strict_eq v lit = true -> v = Some (JStr lit).
Proof.
  destruct v as [[]|]; try discriminate. cbn [strict_eq].
  destruct (String.eqb_spec s lit); [now subst | discriminate].
Qed.

Lemma beats_app tr1 tr2 : beats (tr1 ++ tr2) = beats tr1 ++ beats tr2.
Proof. apply flat_map_app. Qed.

Section ScriptFacts.
Context {U : Type}.
Variable env : option string.
Variable requestId : string.

Definition script_request : Event :=
  EvFetch "GET" (Script.RELAY_API env ++ "/intents/status/v3?requestId=" ++ requestId)%string
          None.

Definition script_line (i : Z) (j : Json) : Event :=
  EvLog ("  [" ++ number_to_string (i + 1) ++ "] " ++ shown (status_value j))%string.

Definition script_round (i : Z) (j : Json) : list Event :=
  [script_request; script_line i j; EvSleep 5000].

Fixpoint script_rounds (i : Z) (sts : list Json) : list Event :=
  match sts with
  | [] => []
  | j :: rest => script_round i j ++ script_rounds (i + 1) rest
  end.

Definition script_banner : Event :=
  EvLog (String newline ("Polling request " ++ requestId ++ "..."))%string.

Definition script_tx (j : Json) : Event :=
  EvLog ("  Tx: " ++ shown (Some (tx_value j)))%string.

Local Abbreviation loop := (@Script.poll_from U env requestId).

Lemma script_loop_unfold i :
  loop i =
  if i <? 60 then
    res <- fetch "GET" (Script.RELAY_API env ++ "/intents/status/v3?requestId="
                        ++ requestId)%string None ;;
    st <- res_json res ;;
    s <- lift (get_prop st "status") ;;
    shown <- lift (to_string s) ;;
    console_log ("  [" ++ number_to_string (i + 1) ++ "] " ++ shown)%string ;;;
    if strict_eq s "success" then
      tx <- lift (get_prop st "txHashes") ;;
      hash <- lift (json_to_string (nullish_or (opt_index0 tx) (JStr "N/A"))) ;;
      console_log ("  Tx: " ++ hash)%string
    else if strict_eq s "failure" || strict_eq s "refund" then
      failed <- lift (to_string s) ;;
      throw (Error ("Relay failed: " ++ failed)%string)
    else sleep 5000 ;;; loop (i + 1)
  else throw (Error "Polling timed out").
Proof.
  rewrite Script.poll_from_equation_1.
  destruct (Z_lt_dec i 60) as [Hlt|Hge], (Z.ltb_spec i 60); try lia; reflexivity.
Qed.

Lemma script_loop_timeout i (w : World U) :
  60 <= i -> loop i w = (Threw (Error "Polling timed out"), w).
Proof.
  intros Hi. rewrite script_loop_unfold.
  destruct (Z.ltb_spec i 60); [lia | reflexivity].
Qed.

Lemma script_set_has s :
  set_has script_terminal s =
  strict_eq s "success" || (strict_eq s "failure" || strict_eq s "refund").
Proof.
  destruct s as [[]|]; try reflexivity. cbn [set_has script_terminal existsb strict_eq].
  now rewrite orb_false_r.
Qed.

Lemma parsed_reply (w : World U) j :
  parsed (incoming w 0%nat) = Some j ->
  exists res, incoming w 0%nat = Some res /\ json res = Some j.
Proof.
  unfold parsed. destruct (incoming w 0%nat) as [res|]; [eauto | discriminate].
Qed.

(** An attempt that fetches a status outside the terminal set, which
    can be printed: its line, a sleep, then the next attempt. *)
Lemma script_loop_pending i (w : World U) j :
  i < 60 ->
  parsed (incoming w 0%nat) = Some j ->
  is_pending script_terminal j = true ->
  printable (status_value j) = true ->
  loop i w =
  loop (i + 1) (mkWorld (fun n => incoming w (S n))
                        (trace w ++ script_round i j) (ui w)).
Proof.
  intros Hi Hans Hpend Hshow. rewrite script_loop_unfold.
  destruct (Z.ltb_spec i 60); [|lia].
  destruct (parsed_reply w j Hans) as (res & Hinc & Hjson).
  unfold is_pending in Hpend. unfold script_round, script_line.
  apply to_string_printable in Hshow. revert Hshow. unfold status_value.
  destruct (get_prop j "status") as [|s] eqn:Hprop; [discriminate|]. intros Hshow.
  apply negb_true_iff in Hpend. rewrite script_set_has in Hpend.
  apply orb_false_iff in Hpend. destruct Hpend as [Hs Hfr].
  unfold bind, fetch, res_json. rewrite Hinc, Hjson. cbn [ret].
  rewrite Hprop. cbn [lift ret]. rewrite Hshow. cbn [lift ret].
  unfold console_log, emit. cbn [ui trace incoming].
  rewrite Hs, Hfr. unfold sleep, emit. cbn [ui trace incoming].
  rewrite <- !app_assoc. reflexivity.
Qed.

(** An attempt that fetches a status which cannot be printed: the
    template literal of the line throws, after the request alone. *)
Lemma script_loop_unprintable i (w : World U) j :
  i < 60 ->
  parsed (incoming w 0%nat) = Some j ->
  printable (status_value j) = false ->
  loop i w =
  (Threw TypeError,
   mkWorld (fun n => incoming w (S n)) (trace w ++ [script_request]) (ui w)).
Proof.
  intros Hi Hans Hshow. rewrite script_loop_unfold.
  destruct (Z.ltb_spec i 60); [|lia].
  destruct (parsed_reply w j Hans) as (res & Hinc & Hjson).
  apply to_string_unprintable in Hshow. revert Hshow. unfold status_value.
  unfold bind, fetch, res_json. rewrite Hinc, Hjson. cbn [ret].
  destruct (get_prop j "status") as [e|s] eqn:Hprop; [discriminate|]. intros Hshow.
  cbn [lift ret]. rewrite Hshow. reflexivity.
Qed.

Lemma script_loop_success i (w : World U) j :
  i < 60 ->
  parsed (incoming w 0%nat) = Some j ->
  strict_eq (status_value j) "success" = true ->
  loop i w =
  if printable (Some (tx_value j)) then
    (Returned tt, mkWorld (fun n => incoming w (S n))
                          (trace w ++ [script_request; script_line i j; script_tx j])
                          (ui w))
  else
    (Threw TypeError, mkWorld (fun n => incoming w (S n))
                              (trace w ++ [script_request; script_line i j]) (ui w)).
Proof.
  intros Hi Hans Hs. rewrite script_loop_unfold.
  destruct (Z.ltb_spec i 60); [|lia].
  destruct (parsed_reply w j Hans) as (res & Hinc & Hjson).
  pose proof (strict_eq_string _ _ Hs) as Hval.
  unfold script_line, script_tx, tx_value. rewrite Hval. unfold status_value in *.
  assert (Hobj : exists fields, j = JObj fields).
  { destruct j; try discriminate. eauto. }
  destruct Hobj as [fields ->]. cbn [get_prop] in *.
  unfold bind, fetch, res_json. rewrite Hinc, Hjson. cbn [ret get_prop lift].
  rewrite Hval. cbn [to_string json_to_string json_text lift ret].
  unfold console_log, emit. cbn [ui trace incoming strict_eq].
  cbn [String.eqb Ascii.eqb Bool.eqb andb].
  unfold printable, shown. cbn [to_string]. unfold json_to_string.
  destruct (json_text (nullish_or (opt_index0 (assoc "txHashes" fields)) (JStr "N/A")));
    cbn [json_text lift ret throw ui trace incoming]; rewrite <- !app_assoc; reflexivity.
Qed.

Lemma script_loop_failed i (w : World U) j :
  i < 60 ->
  parsed (incoming w 0%nat) = Some j ->
  strict_eq (status_value j) "failure" || strict_eq (status_value j) "refund" = true ->
  loop i w =
  (Threw (Error ("Relay failed: " ++ shown (status_value j))%string),
   mkWorld (fun n => incoming w (S n))
           (trace w ++ [script_request; script_line i j]) (ui w)).
Proof.
  intros Hi Hans Hs. rewrite script_loop_unfold.
  destruct (Z.ltb_spec i 60); [|lia].
  destruct (parsed_reply w j Hans) as (res & Hinc & Hjson).
  assert (Hval : exists lit, status_value j = Some (JStr lit)
                             /\ (lit = "failure" \/ lit = "refund")).
  { apply orb_true_iff in Hs. destruct Hs as [Hs|Hs];
      apply strict_eq_string in Hs; eauto. }
  destruct Hval as (lit & Hval & Hlit).
  unfold script_line. rewrite Hval in *. unfold status_value in Hval.
  assert (Hobj : exists fields, j = JObj fields).
  { destruct j; try discriminate. eauto. }
  destruct Hobj as [fields ->]. cbn [get_prop] in *.
  unfold bind, fetch, res_json. rewrite Hinc, Hjson. cbn [ret get_prop lift].
  rewrite Hval. cbn [to_string json_to_string json_text lift ret].
  unfold console_log, emit. cbn [ui trace incoming]. rewrite Hs.
  assert (Hne : strict_eq (Some (JStr lit)) "success" = false).
  { destruct Hlit; subst; reflexivity. }
  rewrite Hne. unfold shown. cbn [to_string json_to_string json_text lift ret throw].
  rewrite <- !app_assoc. reflexivity.
Qed.

Lemma script_loop_rounds sts : forall i (w : World U),
  i + Z.of_nat (List.length sts) <= 60 ->
  serves parsed w sts ->
  Forall (fun j => is_pending script_terminal j = true) sts ->
  Forall (fun j => printable (status_value j) = true) sts ->
  loop i w =
  loop (i + Z.of_nat (List.length sts))
       (mkWorld (fun n => incoming w (List.length sts + n)%nat)
                (trace w ++ script_rounds i sts) (ui w)).
Proof.
  induction sts as [|j rest IH]; intros i w Hi Hs Hpend Hshow.
  - cbn [List.length script_rounds Nat.add]. rewrite app_nil_r, Z.add_0_r.
    destruct w; reflexivity.
  - inversion Hpend as [|? ? Hj Hrest]; subst.
    inversion Hshow as [|? ? Hj' Hrest']; subst.
    cbn [List.length] in Hi.
    rewrite (script_loop_pending i w j) by (try lia; auto; exact (Hs 0%nat j eq_refl)).
    rewrite (IH (i + 1)); cbn [ui trace incoming]; try assumption; try lia.
    + cbn [List.length script_rounds]. rewrite <- app_assoc.
      replace (i + 1 + Z.of_nat (List.length rest))
        with (i + Z.of_nat (S (List.length rest))) by lia.
      reflexivity.
    + eapply serves_tail; [exact Hs | reflexivity].
Qed.

Lemma script_rounds_fetch_count sts : forall i,
  fetch_count (script_rounds i sts) = List.length sts.
Proof.
  induction sts as [|j rest IH]; intros i; [reflexivity|].
  cbn [script_rounds]. rewrite fetch_count_app, IH. reflexivity.
Qed.

Lemma script_rounds_sleep_log sts : forall i,
  sleep_log (script_rounds i sts) = repeat 5000 (List.length sts).
Proof.
  induction sts as [|j rest IH]; intros i; [reflexivity|].
  cbn [script_rounds]. rewrite sleep_log_app, IH. reflexivity.
Qed.

End ScriptFacts.

(** ** Whole runs *)

Lemma feed_app_quiet {U} (cb : option (Callback U)) l1 : forall u l2 u',
  feed cb u (l1 ++ l2) = (u', None) ->
  exists u1, feed cb u l1 = (u1, None) /\ feed cb u1 l2 = (u', None).
Proof.
  induction l1 as [|j rest IH]; intros u l2 u' H.
  - exists u. split; [destruct cb; reflexivity | exact H].
  - cbn [app feed] in *. destruct cb as [f|].
    + destruct (f j u) as [u1 [e|]]; [discriminate|]. now apply IH.
    + injection H as <-. exists u. split; [reflexivity | now destruct l2].
Qed.

Lemma serves_app {U} read (w : World U) l x :
  serves read w (l ++ [x]) ->
  serves read w l /\ read (incoming w (List.length l)) = Some x.
Proof.
  intros Hs. split.
  - intros n j Hn. apply Hs. rewrite nth_error_app1; [exact Hn|].
    apply nth_error_Some. congruence.
  - apply Hs. rewrite nth_error_app2, Nat.sub_diag by lia. reflexivity.
Qed.

Section WebAppRuns.
Context {U : Type}.
Variable app : WebApp.
Variable requestId : string.
Variable onUpdate : option (Callback U).
Variables maxAttempts intervalMs : Z.

Local Abbreviation run :=
  (pollStatus_of app requestId onUpdate (Some maxAttempts) (Some intervalMs)).
Local Abbreviation pending := (fun j => is_pending (terminal_set app) j = true).

Lemma run_rounds sts (w : World U) u' :
  Z.of_nat (List.length sts) <= maxAttempts ->
  serves answer w sts ->
  Forall pending sts ->
  feed onUpdate (ui w) sts = (u', None) ->
  run w =
  attempts_from app requestId onUpdate maxAttempts intervalMs
    (Z.of_nat (List.length sts))
    (mkWorld (fun n => incoming w (List.length sts + n)%nat)
             (trace w ++ flat_map (round requestId onUpdate intervalMs) sts) u').
Proof.
  intros Hlen Hs Hpend Hfeed. rewrite pollStatus_of_unfold. cbn [or_default].
  unfold attempts_from.
  rewrite (loop_rounds _ _ _ (getStatus_of_answer app) _ _ _ _ sts 0 w u');
    auto; lia.
Qed.

Lemma run_to_terminal sts fin (w : World U) u' :
  Z.of_nat (List.length sts) < maxAttempts ->
  serves answer w (sts ++ [fin]) ->
  Forall pending sts ->
  is_terminal (terminal_set app) fin = true ->
  feed onUpdate (ui w) (sts ++ [fin]) = (u', None) ->
  run w =
  (Returned fin,
   mkWorld (fun n => incoming w (List.length sts + S n)%nat)
           (trace w ++ flat_map (round requestId onUpdate intervalMs) sts
                    ++ last_round requestId onUpdate fin) u').
Proof.
  intros Hlen Hs Hpend Hterm Hfeed.
  destruct (serves_app _ _ _ _ Hs) as [Hsts Hfin].
  destruct (feed_app_quiet _ _ _ _ _ Hfeed) as (u1 & Hquiet & Hlast).
  rewrite (run_rounds sts w u1) by (auto; lia).
  unfold attempts_from.
  rewrite (loop_terminal _ _ _ (getStatus_of_answer app) _ _ _ _ _ _ fin u');
    cbn [incoming trace ui]; auto.
  - rewrite <- app_assoc. reflexivity.
  - now rewrite Nat.add_0_r.
Qed.

Lemma run_to_timeout sts (w : World U) u' :
  Z.of_nat (List.length sts) = maxAttempts ->
  serves answer w sts ->
  Forall pending sts ->
  feed onUpdate (ui w) sts = (u', None) ->
  run w =
  (Threw (Error (timeout_message app maxAttempts)),
   mkWorld (fun n => incoming w (List.length sts + n)%nat)
           (trace w ++ flat_map (round requestId onUpdate intervalMs) sts) u').
Proof.
  intros Hlen Hs Hpend Hfeed.
  rewrite (run_rounds sts w u') by (auto; lia).
  unfold attempts_from.
  now rewrite (loop_timeout _ _ _ _ _ _ _ _ _) by lia.
Qed.

Lemma run_to_callback_throw cb sts fin (w : World U) u1 u' e :
  onUpdate = Some cb ->
  Z.of_nat (List.length sts) < maxAttempts ->
  serves answer w (sts ++ [fin]) ->
  Forall pending sts ->
  feed onUpdate (ui w) sts = (u1, None) ->
  cb fin u1 = (u', Some e) ->
  run w =
  (Threw e,
   mkWorld (fun n => incoming w (List.length sts + S n)%nat)
           (trace w ++ flat_map (round requestId onUpdate intervalMs) sts
                    ++ [request requestId; EvUpdate fin]) u').
Proof.
  intros Hcb Hlen Hs Hpend Hquiet Hthrow.
  destruct (serves_app _ _ _ _ Hs) as [Hsts Hfin].
  rewrite (run_rounds sts w u1) by (auto; lia).
  unfold attempts_from.
  rewrite (loop_callback_throws _ _ _ (getStatus_of_answer app) _ _ _ _ _ _ fin cb u' e);
    cbn [incoming trace ui]; auto.
  - rewrite <- app_assoc. reflexivity.
  - now rewrite Nat.add_0_r.
Qed.

(** Every run, with the parameters given or left out. *)
Lemma run_shape_of maxArg intervalArg (w : World U) :
  run_shape (terminal_set app) onUpdate
            (or_default maxArg (default_maxAttempts app))
            (or_default intervalArg (default_intervalMs app)) 0 w
            (pollStatus_of app requestId onUpdate maxArg intervalArg w).
Proof.
  rewrite pollStatus_of_unfold. unfold attempts_from.
  eapply loop_shape.
  - apply getStatus_of_answer.
  - apply getStatus_of_fails.
  - reflexivity.
Qed.

End WebAppRuns.

Section ScriptRuns.
Context {U : Type}.
Variable env : option string.
Variable requestId : string.

Local Abbreviation pending := (fun j => is_pending script_terminal j = true).
Local Abbreviation printed := (fun j => printable (status_value j) = true).

Lemma script_run_rounds sts (w : World U) :
  Z.of_nat (List.length sts) <= 60 ->
  serves parsed w sts ->
  Forall pending sts ->
  Forall printed sts ->
  Script.pollStatus env requestId w =
  Script.poll_from env requestId (Z.of_nat (List.length sts))
    (mkWorld (fun n => incoming w (List.length sts + n)%nat)
             (trace w ++ script_banner requestId :: script_rounds env requestId 0 sts)
             (ui w)).
Proof.
  intros Hlen Hs Hpend Hshow. unfold Script.pollStatus, bind, console_log, emit.
  rewrite (script_loop_rounds env requestId sts 0); cbn [incoming trace ui]; auto.
  rewrite <- app_assoc. reflexivity.
Qed.

Lemma script_run_to_timeout sts (w : World U) :
  List.length sts = 60%nat ->
  serves parsed w sts ->
  Forall pending sts ->
  Forall printed sts ->
  Script.pollStatus env requestId w =
  (Threw (Error "Polling timed out"),
   mkWorld (fun n => incoming w (List.length sts + n)%nat)
           (trace w ++ script_banner requestId :: script_rounds env requestId 0 sts)
           (ui w)).
Proof.
  intros Hlen Hs Hpend Hshow.
  rewrite (script_run_rounds sts w) by (auto; lia).
  now rewrite script_loop_timeout by lia.
Qed.

(** The events of the attempt on which the script stops: the request,
    the line of the status and, on [success], the line of the
    transaction hash when that value can be printed. *)
Definition script_last_round (i : Z) (fin : Json) : list Event :=
  if strict_eq (status_value fin) "success"
  then script_request env requestId :: script_line i fin
       :: (if printable (Some (tx_value fin)) then [script_tx fin] else [])
  else [script_request env requestId; script_line i fin].

(** How the script ends on a terminal status. *)
Definition script_verdict (fin : Json) : Result unit :=
  if strict_eq (status_value fin) "success" then
    if printable (Some (tx_value fin)) then Returned tt else Threw TypeError
  else Threw (Error ("Relay failed: " ++ shown (status_value fin))%string).

Lemma script_run_to_terminal sts fin (w : World U) :
  Z.of_nat (List.length sts) < 60 ->
  serves parsed w (sts ++ [fin]) ->
  Forall pending sts ->
  Forall printed sts ->
  is_terminal script_terminal fin = true ->
  Script.pollStatus env requestId w =
  (script_verdict fin,
   mkWorld (fun n => incoming w (List.length sts + S n)%nat)
           (trace w ++ script_banner requestId :: script_rounds env requestId 0 sts
                    ++ script_last_round (Z.of_nat (List.length sts)) fin)
           (ui w)).
Proof.
  intros Hlen Hs Hpend Hshow Hterm.
  destruct (serves_app _ _ _ _ Hs) as [Hsts Hfin].
  rewrite (script_run_rounds sts w) by (auto; lia).
  assert (Hset : set_has script_terminal (status_value fin) = true).
  { unfold is_terminal in Hterm. unfold status_value.
    destruct (get_prop fin "status"); [discriminate | exact Hterm]. }
  rewrite script_set_has in Hset.
  unfold script_verdict, script_last_round.
  destruct (strict_eq (status_value fin) "success") eqn:Hsucc.
  - rewrite (script_loop_success env requestId _ _ fin);
      cbn [incoming trace ui]; auto.
    + destruct (printable (Some (tx_value fin))); rewrite <- app_assoc; reflexivity.
    + now rewrite Nat.add_0_r.
  - cbn [orb] in Hset.
    rewrite (script_loop_failed env requestId _ _ fin);
      cbn [incoming trace ui]; auto.
    + rewrite <- app_assoc. reflexivity.
    + now rewrite Nat.add_0_r.
Qed.

End ScriptRuns.

(** ** Every run, however it ends *)

(** What [getStatus] of the web applications throws on a reply it
    cannot turn into a status: the transport failure of [fetch], the
    parse error of [res.json()], or its own error for a response that
    is not ok. *)
Definition getStatus_error (reply : option Response) : Exn :=
  match reply with
  | None => TypeError
  | Some res =>
      if ok res then SyntaxError
      else Error ("Status check failed (" ++ number_to_string (status res) ++ "): "
                  ++ JSON_stringify (res_json_or_empty res))%string
  end.

Lemma getStatus_of_error {U} app rid (w : World U) :
  answer (incoming w 0%nat) = None ->
  getStatus_of app rid w = (Threw (getStatus_error (incoming w 0%nat)), sent rid w).
Proof.
  unfold answer, getStatus_error. intros Hans.
  destruct (incoming w 0%nat) as [res|] eqn:Hinc.
  - destruct (ok res) eqn:Hok;
      destruct app; cbn [getStatus_of];
      unfold OriginSubsidy.getStatus, ByoEoaPermit.getStatus, bind, fetch;
      rewrite Hinc, Hok; cbn [negb]; unfold res_json; try rewrite Hans; reflexivity.
  - destruct app; cbn [getStatus_of];
      unfold OriginSubsidy.getStatus, ByoEoaPermit.getStatus, bind, fetch;
      rewrite Hinc; reflexivity.
Qed.

Lemma attempts_from_unfold {U} app rid (cb : option (Callback U)) maxAttempts intervalMs i :
  attempts_from app rid cb maxAttempts intervalMs i =
  if i <? maxAttempts then
    st <- getStatus_of app rid ;;
    notify cb st ;;;
    s <- lift (get_prop st "status") ;;
    if set_has (terminal_set app) s then ret st
    else sleep intervalMs ;;; attempts_from app rid cb maxAttempts intervalMs (i + 1)
  else throw (Error (timeout_message app maxAttempts)).
Proof. unfold attempts_from. apply loop_unfold. Qed.

Lemma attempts_from_fetch_fails {U} app rid (cb : option (Callback U))
    maxAttempts intervalMs i (w : World U) :
  i < maxAttempts ->
  answer (incoming w 0%nat) = None ->
  attempts_from app rid cb maxAttempts intervalMs i w
  = (Threw (getStatus_error (incoming w 0%nat)), sent rid w).
Proof.
  intros Hi Hans. rewrite attempts_from_unfold.
  destruct (Z.ltb_spec i maxAttempts); [|lia].
  unfold bind at 1. now rewrite (getStatus_of_error app rid w Hans).
Qed.

Lemma last_round_fetch_count {U} rid (cb : option (Callback U)) j :
  fetch_count (last_round rid cb j) = 1%nat.
Proof. destruct cb; reflexivity. Qed.

Lemma last_round_sleep_log {U} rid (cb : option (Callback U)) j :
  sleep_log (last_round rid cb j) = [].
Proof. destruct cb; reflexivity. Qed.

Lemma script_last_round_fetch_count env rid i j :
  fetch_count (script_last_round env rid i j) = 1%nat.
Proof.
  unfold script_last_round.
  destruct (strict_eq _ _); [destruct (printable _)|]; reflexivity.
Qed.

Lemma script_last_round_sleep_log env rid i j :
  sleep_log (script_last_round env rid i j) = [].
Proof.
  unfold script_last_round.
  destruct (strict_eq _ _); [destruct (printable _)|]; reflexivity.
Qed.

Lemma beats_notice {U} (cb : option (Callback U)) j : beats (notice cb j) = [].
Proof. destruct cb; reflexivity. Qed.

Lemma calls_app tr1 tr2 : calls (tr1 ++ tr2) = calls tr1 ++ calls tr2.
Proof. apply filter_app. Qed.

Lemma calls_notice {U} (cb : option (Callback U)) j : calls (notice cb j) = notice cb j.
Proof. destruct cb; reflexivity. Qed.

(** [onUpdate?.(status)] runs the callback once, on the state of the
    interface at that point. *)
Lemma notify_feed {U} (cb : option (Callback U)) j (w : World U) :
  notify cb j w =
  (match snd (feed cb (ui w) [j]) with
   | None => Returned tt
   | Some e => Threw e
   end,
   mkWorld (incoming w) (trace w ++ notice cb j) (fst (feed cb (ui w) [j]))).
Proof.
  unfold notify, notice. cbn [feed]. destruct cb as [f|].
  - destruct (f j (ui w)) as [u1 [e|]]; reflexivity.
  - cbn [fst snd ret]. rewrite app_nil_r. destruct w; reflexivity.
Qed.

Lemma feed_cons {U} (cb : option (Callback U)) u j rest :
  feed cb u (j :: rest) =
  match snd (feed cb u [j]) with
  | None => feed cb (fst (feed cb u [j])) rest
  | Some e => feed cb u [j]
  end.
Proof.
  cbn [feed]. destruct cb as [f|].
  - destruct (f j u) as [u1 [e|]]; reflexivity.
  - destruct rest; reflexivity.
Qed.

(** The requests of the first [n] attempts, each followed by the call
    of the callback on the status it fetched, when it fetched one. *)
Definition exchanges {U} (requestId : string) (onUpdate : option (Callback U))
    (inc : nat -> option Response) (n : nat) : list Event :=
  flat_map (fun k => request requestId :: match answer (inc k) with
                                          | Some j => notice onUpdate j
                                          | None => []
                                          end) (seq 0 n).

Lemma exchanges_S {U} rid (cb : option (Callback U)) inc n :
  exchanges rid cb inc (S n) =
  (request rid :: match answer (inc 0%nat) with
                  | Some j => notice cb j
                  | None => []
                  end)
  ++ exchanges rid cb (fun k => inc (S k)) n.
Proof.
  unfold exchanges. cbn [seq flat_map]. f_equal.
  rewrite <- seq_shift, flat_map_concat_map, map_map, <- flat_map_concat_map.
  reflexivity.
Qed.

(** What the callback saw of a run: it was called after each request
    that fetched a status, on that status, and the state of the
    interface is the one these calls, in order, lead to. *)
Lemma attempts_from_calls {U} app rid (cb : option (Callback U)) maxAttempts intervalMs n :
  forall i (w : World U) out,
    Z.to_nat (maxAttempts - i) = n ->
    attempts_from app rid cb maxAttempts intervalMs i w = out ->
    exists added thrown,
      trace (snd out) = trace w ++ added
      /\ calls added = exchanges rid cb (incoming w) (fetch_count added)
      /\ feed cb (ui w) (fetched answer (incoming w) (fetch_count added))
         = (ui (snd out), thrown)
      /\ match thrown with
         | Some e => fst out = Threw e
         | None => True
         end.
Proof.
  induction n as [|n IH]; intros i w out Hn Hrun.
  - unfold attempts_from in Hrun. rewrite loop_timeout in Hrun by lia. subst out.
    exists [], None. cbn [fst snd]. rewrite app_nil_r. repeat split.
  - assert (Hi : i < maxAttempts) by lia.
    destruct (answer (incoming w 0%nat)) as [j|] eqn:Hans.
    2:{ rewrite attempts_from_fetch_fails in Hrun by auto. subst out.
        exists [request rid], None. cbn [fst snd sent trace ui].
        change (fetch_count [request rid]) with 1%nat.
        rewrite exchanges_S, fetched_S, Hans. repeat split. }
    rewrite attempts_from_unfold in Hrun.
    destruct (Z.ltb_spec i maxAttempts); [|lia].
    unfold bind at 1 in Hrun. rewrite (getStatus_of_answer app rid w j Hans) in Hrun.
    unfold bind at 1 in Hrun. rewrite notify_feed in Hrun.
    cbn [sent ui trace incoming] in Hrun.
    assert (Hlast : forall (r : Result Json) thrown,
               snd (feed cb (ui w) [j]) = thrown ->
               match thrown with Some e => r = Threw e | None => True end ->
               (r, mkWorld (fun n => incoming w (S n))
                           ((trace w ++ [request rid]) ++ notice cb j)
                           (fst (feed cb (ui w) [j]))) = out ->
               exists added thrown,
                 trace (snd out) = trace w ++ added
                 /\ calls added = exchanges rid cb (incoming w) (fetch_count added)
                 /\ feed cb (ui w) (fetched answer (incoming w) (fetch_count added))
                    = (ui (snd out), thrown)
                 /\ match thrown with
                    | Some e => fst out = Threw e
                    | None => True
                    end).
    { intros r thrown Hthrown Hr <-. exists (last_round rid cb j), thrown.
      cbn [fst snd trace ui]. rewrite last_round_fetch_count.
      rewrite exchanges_S, fetched_S, Hans. cbn [exchanges seq flat_map fetched List.app].
      rewrite app_nil_r. repeat split.
      - rewrite <- app_assoc. reflexivity.
      - unfold last_round.
        change (calls (request rid :: notice cb j)) with (request rid :: calls (notice cb j)).
        now rewrite calls_notice.
      - rewrite <- Hthrown. now destruct (feed cb (ui w) [j]).
      - exact Hr. }
    destruct (snd (feed cb (ui w) [j])) as [e|] eqn:Hthrown;
      [exact (Hlast _ (Some e) eq_refl eq_refl Hrun)|].
    unfold bind at 1 in Hrun.
    destruct (get_prop j "status") as [e|s]; cbn [lift throw ret] in Hrun;
      [exact (Hlast _ None eq_refl I Hrun)|].
    destruct (set_has (terminal_set app) s); [exact (Hlast _ None eq_refl I Hrun)|].
    unfold bind, sleep, emit in Hrun. cbn [ui trace incoming] in Hrun.
    destruct (IH (i + 1) _ out ltac:(lia) Hrun)
      as (added & thrown & Hadd & Hcalls & Hfeed & Hthrew).
    cbn [trace incoming ui] in Hadd, Hcalls, Hfeed.
    assert (Hfc : fetch_count (round rid cb intervalMs j ++ added) = S (fetch_count added)).
    { unfold round.
      change (fetch_count ((request rid :: notice cb j ++ [EvSleep intervalMs]) ++ added))
        with (S (fetch_count ((notice cb j ++ [EvSleep intervalMs]) ++ added))).
      rewrite !fetch_count_app, fetch_count_notice. reflexivity. }
    exists (round rid cb intervalMs j ++ added), thrown. rewrite Hfc.
    repeat split.
    + rewrite Hadd. unfold round.
      rewrite <- !app_assoc. cbn [List.app]. rewrite <- ?app_assoc. reflexivity.
    + unfold round.
      change (calls ((request rid :: notice cb j ++ [EvSleep intervalMs]) ++ added))
        with (request rid :: calls ((notice cb j ++ [EvSleep intervalMs]) ++ added)).
      rewrite !calls_app, calls_notice, Hcalls, exchanges_S, Hans.
      cbn [calls filter is_call List.app]. rewrite <- app_assoc. reflexivity.
    + rewrite fetched_S, Hans. cbn [List.app]. rewrite feed_cons, Hthrown. exact Hfeed.
    + exact Hthrew.
Qed.

Lemma pollStatus_of_calls {U} app rid (cb : option (Callback U)) maxArg intervalArg
    (w : World U) :
  exists added thrown,
    trace (snd (pollStatus_of app rid cb maxArg intervalArg w)) = trace w ++ added
    /\ calls added = exchanges rid cb (incoming w) (fetch_count added)
    /\ feed cb (ui w) (fetched answer (incoming w) (fetch_count added))
       = (ui (snd (pollStatus_of app rid cb maxArg intervalArg w)), thrown)
    /\ match thrown with
       | Some e => fst (pollStatus_of app rid cb maxArg intervalArg w) = Threw e
       | None => True
       end.
Proof.
  rewrite pollStatus_of_unfold.
  exact (attempts_from_calls app rid cb _ _ _ 0 w _ eq_refl eq_refl).
Qed.

(** *** Requests and timers *)

(** A run made so many requests and so many sleeps: a sleep follows
    each request but, when the run ends inside an attempt, the last. *)
Definition paced {A} (result : Result A) (requests sleeps : nat) : Prop :=
  match result with
  | Returned _ => requests = S sleeps
  | Threw _ => requests = sleeps \/ requests = S sleeps
  end.

(** The request that is not followed by a timer, when there is one. *)
Definition unanswered (requests sleeps : nat) : list Beat :=
  if (requests =? sleeps)%nat then [] else [asked].

Lemma attempts_from_paced {U} app rid (cb : option (Callback U)) maxAttempts intervalMs n :
  forall i (w : World U) out,
    Z.to_nat (maxAttempts - i) = n ->
    attempts_from app rid cb maxAttempts intervalMs i w = out ->
    exists added m,
      trace (snd out) = trace w ++ added
      /\ sleep_log added = repeat intervalMs m
      /\ Z.of_nat (fetch_count added) <= Z.max 0 (maxAttempts - i)
      /\ paced (fst out) (fetch_count added) m
      /\ beats added = rhythm intervalMs m ++ unanswered (fetch_count added) m.
Proof.
  induction n as [|n IH]; intros i w out Hn Hrun.
  - unfold attempts_from in Hrun. rewrite loop_timeout in Hrun by lia. subst out.
    exists [], 0%nat. cbn [fst snd paced]. rewrite app_nil_r.
    repeat split; auto. cbn. lia.
  - assert (Hi : i < maxAttempts) by lia.
    destruct (answer (incoming w 0%nat)) as [j|] eqn:Hans.
    2:{ rewrite attempts_from_fetch_fails in Hrun by auto. subst out.
        exists [request rid], 0%nat. cbn [fst snd sent trace paced].
        repeat split; auto. change (fetch_count [request rid]) with 1%nat. lia. }
    rewrite attempts_from_unfold in Hrun.
    destruct (Z.ltb_spec i maxAttempts); [|lia].
    unfold bind at 1 in Hrun. rewrite (getStatus_of_answer app rid w j Hans) in Hrun.
    unfold bind at 1 in Hrun.
    destruct (notify_world cb j (sent rid w)) as [Hinc Htr].
    assert (Hlast : forall (r : Result Json) (w1 : World U),
               trace w1 = (trace w ++ [request rid]) ++ notice cb j ->
               (r, w1) = out ->
               exists added m,
                 trace (snd out) = trace w ++ added
                 /\ sleep_log added = repeat intervalMs m
                 /\ Z.of_nat (fetch_count added) <= Z.max 0 (maxAttempts - i)
                 /\ paced (fst out) (fetch_count added) m
                 /\ beats added = rhythm intervalMs m ++ unanswered (fetch_count added) m).
    { intros r w1 Hw1 <-. exists (last_round rid cb j), 0%nat. cbn [fst snd].
      rewrite last_round_fetch_count, last_round_sleep_log.
      repeat split.
      - rewrite Hw1, <- app_assoc. reflexivity.
      - lia.
      - destruct r; cbn; auto.
      - unfold last_round.
        change (beats (request rid :: notice cb j)) with (asked :: beats (notice cb j)).
        now rewrite beats_notice. }
    destruct (notify cb j (sent rid w)) as [[[]|e] w1] eqn:Hnot;
      cbn [snd] in Hinc, Htr; cbn [sent trace incoming] in Hinc, Htr;
      [|exact (Hlast _ w1 Htr Hrun)].
    unfold bind at 1 in Hrun.
    destruct (get_prop j "status") as [e|s]; cbn [lift throw ret] in Hrun;
      [exact (Hlast _ w1 Htr Hrun)|].
    destruct (set_has (terminal_set app) s); [exact (Hlast _ w1 Htr Hrun)|].
    unfold bind, sleep, emit in Hrun.
    destruct (IH (i + 1) _ out ltac:(lia) Hrun)
      as (added & m & Hadd & Hm & Hcount & Hpaced & Hbeats).
    cbn [trace] in Hadd.
    assert (Hfc : fetch_count (round rid cb intervalMs j ++ added) = S (fetch_count added)).
    { unfold round.
      change (fetch_count ((request rid :: notice cb j ++ [EvSleep intervalMs]) ++ added))
        with (S (fetch_count ((notice cb j ++ [EvSleep intervalMs]) ++ added))).
      rewrite !fetch_count_app, fetch_count_notice. reflexivity. }
    exists (round rid cb intervalMs j ++ added), (S m). rewrite Hfc.
    repeat split.
    + rewrite Hadd, Htr. unfold round.
      rewrite <- !app_assoc. cbn [List.app]. rewrite <- ?app_assoc. reflexivity.
    + unfold round.
      change (sleep_log ((request rid :: notice cb j ++ [EvSleep intervalMs]) ++ added))
        with (sleep_log ((notice cb j ++ [EvSleep intervalMs]) ++ added)).
      rewrite !sleep_log_app, sleep_log_notice, Hm. reflexivity.
    + lia.
    + unfold paced in *. destruct (fst out); lia.
    + unfold round.
      change (beats ((request rid :: notice cb j ++ [EvSleep intervalMs]) ++ added))
        with (asked :: beats ((notice cb j ++ [EvSleep intervalMs]) ++ added)).
      rewrite !beats_app, beats_notice, Hbeats. reflexivity.
Qed.

(** An attempt of the script that ends the run: [Hlast] says what
    holds of it, [Hrun] is the run. *)
Ltac script_stops Hlast Hrun :=
  eapply Hlast; [| | | | exact Hrun];
  [cbn [trace]; rewrite <- ?app_assoc; reflexivity
  | reflexivity | reflexivity | reflexivity].

Lemma script_loop_paced {U} env rid n :
  forall i (w : World U) out,
    Z.to_nat (60 - i) = n ->
    Script.poll_from env rid i w = out ->
    exists added m,
      trace (snd out) = trace w ++ added
      /\ sleep_log added = repeat 5000 m
      /\ Z.of_nat (fetch_count added) <= Z.max 0 (60 - i)
      /\ paced (fst out) (fetch_count added) m
      /\ beats added = rhythm 5000 m ++ unanswered (fetch_count added) m.
Proof.
  induction n as [|n IH]; intros i w out Hn Hrun.
  - rewrite script_loop_timeout in Hrun by lia. subst out.
    exists [], 0%nat. cbn [fst snd paced].
    rewrite app_nil_r. repeat split; auto. cbn. lia.
  - rewrite script_loop_unfold in Hrun. destruct (Z.ltb_spec i 60); [|lia].
    assert (Hone : 1 <= Z.max 0 (60 - i)) by lia.
    assert (Hlast : forall (r : Result unit) (w1 : World U) rest,
               trace w1 = trace w ++ script_request env rid :: rest ->
               beats rest = [] -> fetch_count rest = 0%nat -> sleep_log rest = [] ->
               (r, w1) = out ->
               exists added m,
                 trace (snd out) = trace w ++ added
                 /\ sleep_log added = repeat 5000 m
                 /\ Z.of_nat (fetch_count added) <= Z.max 0 (60 - i)
                 /\ paced (fst out) (fetch_count added) m
                 /\ beats added = rhythm 5000 m ++ unanswered (fetch_count added) m).
    { intros r w1 rest Hw1 Hb Hf Hsl <-. exists (script_request env rid :: rest), 0%nat.
      cbn [fst snd].
      change (fetch_count (script_request env rid :: rest)) with (S (fetch_count rest)).
      change (sleep_log (script_request env rid :: rest)) with (sleep_log rest).
      change (beats (script_request env rid :: rest)) with (asked :: beats rest).
      rewrite Hf, Hsl, Hb. repeat split; auto.
      destruct r; cbn; auto. }
    unfold bind, fetch in Hrun.
    destruct (incoming w 0%nat) as [res|]; [|script_stops Hlast Hrun].
    unfold res_json in Hrun.
    destruct (json res) as [j|]; cbn [ret throw] in Hrun; [|script_stops Hlast Hrun].
    destruct (get_prop j "status") as [e|s]; cbn [lift ret throw] in Hrun;
      [script_stops Hlast Hrun|].
    destruct (to_string s) as [e|line]; cbn [lift ret throw] in Hrun;
      [script_stops Hlast Hrun|].
    unfold console_log, emit in Hrun. cbn [ui trace incoming] in Hrun.
    destruct (strict_eq s "success").
    { destruct (get_prop j "txHashes") as [e|tx]; cbn [lift ret throw] in Hrun;
        [script_stops Hlast Hrun|].
      destruct (json_to_string (nullish_or (opt_index0 tx) (JStr "N/A"))) as [e|hash];
        cbn [lift ret throw ui trace incoming] in Hrun; script_stops Hlast Hrun. }
    destruct (strict_eq s "failure" || strict_eq s "refund").
    { destruct (to_string s) as [e|failed]; cbn [lift ret throw] in Hrun;
        script_stops Hlast Hrun. }
    unfold sleep, emit in Hrun. cbn [ui trace incoming] in Hrun.
    destruct (IH (i + 1) _ out ltac:(lia) Hrun)
      as (added & m & Hadd & Hm & Hcount & Hpaced & Hbeats).
    cbn [trace] in Hadd.
    exists ([script_request env rid]
            ++ [EvLog ("  [" ++ number_to_string (i + 1) ++ "] " ++ line)%string]
            ++ [EvSleep 5000] ++ added), (S m).
    repeat split.
    + rewrite Hadd, <- !app_assoc. reflexivity.
    + cbn [app sleep_log flat_map]. fold (sleep_log added). now rewrite Hm.
    + cbn [app]. unfold fetch_count in *.
      cbn [filter is_fetch script_request List.length]. lia.
    + cbn [app]. unfold fetch_count in *.
      cbn [filter is_fetch script_request List.length].
      unfold paced in *. destruct (fst out); lia.
    + cbn [app beats flat_map script_request]. fold (beats added). rewrite Hbeats.
      unfold fetch_count. cbn [filter is_fetch List.length]. reflexivity.
Qed.

Lemma script_pollStatus_paced {U} env rid (w : World U) :
  exists added m,
    trace (snd (Script.pollStatus env rid w)) = trace w ++ added
    /\ sleep_log added = repeat 5000 m
    /\ Z.of_nat (fetch_count added) <= 60
    /\ paced (fst (Script.pollStatus env rid w)) (fetch_count added) m
    /\ beats added = rhythm 5000 m ++ unanswered (fetch_count added) m.
Proof.
  unfold Script.pollStatus, bind, console_log, emit.
  match goal with |- context [Script.poll_from _ _ _ ?w1] =>
    destruct (script_loop_paced env rid 60 0 w1 _ eq_refl eq_refl)
      as (added & m & Hadd & Hm & Hcount & Hpaced & Hbeats)
  end.
  cbn [trace] in Hadd. exists (script_banner rid :: added), m.
  change (fetch_count (script_banner rid :: added)) with (fetch_count added).
  change (beats (script_banner rid :: added)) with (beats added).
  repeat split; auto.
  rewrite Hadd, <- app_assoc. reflexivity.
Qed.

Lemma pollStatus_of_paced {U} app rid (cb : option (Callback U)) maxArg intervalArg
    (w : World U) :
  exists added m,
    trace (snd (pollStatus_of app rid cb maxArg intervalArg w)) = trace w ++ added
    /\ sleep_log added = repeat (or_default intervalArg (default_intervalMs app)) m
    /\ Z.of_nat (fetch_count added) <= Z.max 0 (or_default maxArg (default_maxAttempts app))
    /\ paced (fst (pollStatus_of app rid cb maxArg intervalArg w)) (fetch_count added) m
    /\ beats added = rhythm (or_default intervalArg (default_intervalMs app)) m
                     ++ unanswered (fetch_count added) m.
Proof.
  rewrite pollStatus_of_unfold.
  destruct (attempts_from_paced app rid cb
              (or_default maxArg (default_maxAttempts app))
              (or_default intervalArg (default_intervalMs app)) _ 0 w _ eq_refl eq_refl)
    as (added & m & Hadd & Hm & Hcount & Hpaced & Hbeats).
  exists added, m. rewrite Z.sub_0_r in Hcount. auto.
Qed.

(** *** The timers between two requests *)

Lemma removelast_repeat {A} (x : A) m : removelast (repeat x m) = repeat x (pred m).
Proof.
  induction m as [|[|k] IH]; try reflexivity.
  change (repeat x (S (S k))) with (x :: repeat x (S k)).
  change (removelast (x :: repeat x (S k))) with (x :: removelast (repeat x (S k))).
  now rewrite IH.
Qed.

Lemma split_waits_rhythm ms m : forall tail,
  fst (split_waits tail) = [] ->
  split_waits (rhythm ms m ++ tail) = ([], repeat [ms] m ++ snd (split_waits tail)).
Proof.
  induction m as [|k IH]; intros tail Htail.
  - cbn [rhythm app repeat]. destruct (split_waits tail) as [lead after].
    cbn [fst snd] in *. now subst.
  - cbn [rhythm app split_waits repeat]. rewrite (IH tail Htail). reflexivity.
Qed.

(** In a trace that is so many rounds of a request and a timer, with
    at most one request more, every two consecutive requests have
    exactly one timer between them. *)
Lemma between_attempts_paced tr ms m :
  beats tr = rhythm ms m ++ unanswered (fetch_count tr) m ->
  (fetch_count tr = m \/ fetch_count tr = S m) ->
  between_attempts tr = repeat [ms] (pred (fetch_count tr)).
Proof.
  intros Hbeats Hcount. unfold between_attempts. rewrite Hbeats.
  unfold unanswered. destruct Hcount as [-> | ->].
  - rewrite Nat.eqb_refl, split_waits_rhythm by reflexivity.
    cbn [snd split_waits]. rewrite app_nil_r. apply removelast_repeat.
  - destruct (Nat.eqb_spec (S m) m) as [Habs|_]; [lia|].
    rewrite split_waits_rhythm by reflexivity.
    cbn [snd split_waits pred]. apply removelast_last.
Qed.

Example between_attempts_example :
  between_attempts [EvLog "start"; EvFetch "GET" "u" None; EvUpdate JNull; EvSleep 3000;
                    EvFetch "GET" "u" None; EvSleep 3000; EvFetch "GET" "u" None]
  = [[3000]; [3000]]
  /\ between_attempts [EvFetch "GET" "u" None; EvFetch "GET" "u" None; EvSleep 3000]
     = [[]].
Proof. split; reflexivity. Qed.

Lemma paced_count {A} (r : Result A) requests sleeps :
  paced r requests sleeps -> requests = sleeps \/ requests = S sleeps.
Proof. unfold paced. destruct r; auto. Qed.

(** *** Texts that are never empty *)

Lemma decimal_nonempty n : decimal n <> EmptyString.
Proof. unfold decimal. destruct (N.to_uint (Z.to_N n)); discriminate. Qed.

Lemma print_double_nonempty x : print_double x <> EmptyString.
Proof.
  unfold print_double. destruct (x <? 2 ^ 53); [apply decimal_nonempty|].
  destruct (2 ^ 1024 <=? x); [discriminate|].
  destruct (digit_count (shortest x) <=? 21); [apply decimal_nonempty|].
  unfold exponent_form.
  destruct (significant (decimal (shortest x))) as [|c [|c' rest]];
    [apply decimal_nonempty | discriminate | discriminate].
Qed.

Lemma number_to_string_nonempty n : number_to_string n <> EmptyString.
Proof.
  unfold number_to_string. destruct (n <? 0); [discriminate|].
  apply print_double_nonempty.
Qed.

Lemma JSON_stringify_nonempty j : JSON_stringify j <> EmptyString.
Proof.
  destruct j as [|[]|n|s|items|fields]; cbn; try discriminate.
  apply number_to_string_nonempty.
Qed.

(** How numbers and values print. *)
Example number_to_string_examples :
  number_to_string 503 = "503"
  /\ number_to_string (-1) = "-1"
  /\ number_to_string (2 ^ 53 + 1) = "9007199254740992"
  /\ number_to_string (2 ^ 64) = "18446744073709552000"
  /\ number_to_string (10 ^ 21) = "1e+21"
  /\ number_to_string (- 2 ^ 70) = "-1.1805916207174113e+21"
  /\ number_to_string (2 ^ 1024) = "Infinity".
Proof. repeat split; vm_compute; reflexivity. Qed.

Example to_string_examples :
  to_string None = inr "undefined"
  /\ to_string (Some (JArr [JNum 1; JNull; JArr [JStr "a"; JBool true]])) = inr "1,,a,true"
  /\ to_string (Some (JObj [("status", JStr "pending")])) = inr "[object Object]"
  /\ to_string (Some (JObj [("toString", JNull)])) = inl TypeError
  /\ to_string (Some (JArr [JStr "a"; JObj [("toString", JStr "b")]])) = inl TypeError.
Proof. repeat split; reflexivity. Qed.

(** The member [name] of a parsed body, [undefined] when it has
    none. *)
Definition member (j : Json) (name : string) : JsValue :=
  match get_prop j name with
  | inr v => v
  | inl _ => None
  end.

Lemma to_string_cases v :
  to_string v = if printable v then inr (shown v) else inl TypeError.
Proof.
  destruct (printable v) eqn:H;
    [now apply to_string_printable | now apply to_string_unprintable].
Qed.

(** ** Sample worlds *)

Definition ok_response (j : Json) : Response :=
  mkResponse true 200 "OK" (JSON_stringify j) (Some j).

Definition status_body (s : string) : Json :=
  JObj [("status", JStr s); ("requestId", JStr "0x01")].

(** A server that answers with the bodies of [l], then goes away. *)
Definition replying (l : list Json) : World nat :=
  mkWorld (fun n => option_map ok_response (nth_error l n)) [] 0%nat.

(** A server that answers every request with [j]. *)
Definition always (j : Json) : World nat :=
  mkWorld (fun _ => Some (ok_response j)) [] 0%nat.

(** A server that answers every request with the response [res]. *)
Definition responding (res : Response) : World nat :=
  mkWorld (fun _ => Some res) [] 0%nat.

(** A status response whose status is an object with a [toString]
    member of its own: [{"status": {"toString": null}}]. *)
Definition unprintable_status : Json :=
  JObj [("status", JObj [("toString", JNull)])].

(** A callback that counts its invocations, and one that throws on
    invocation number [k] (from 0). *)
Definition counting : Callback nat := fun _ n => (S n, None).

Definition failing_at (k : nat) : Callback nat :=
  fun _ n => (S n, if (n =? k)%nat then Some (Error "render failed") else None).

Ltac served :=
  let n := fresh "n" in
  let j := fresh "j" in
  let H := fresh "H" in
  intros n j H;
  repeat (destruct n as [|n]; [cbn in H; injection H as <-; reflexivity|]);
  cbn in H; try (destruct n); discriminate.

Ltac all_pending := repeat constructor.

(** ** The claims *)

(** C1, as amended.  In the two web applications, when the first
    terminal status comes on attempt [k = S (length sts)], with
    [k <= maxAttempts], and the progress callback does not throw,
    [pollStatus] returns that status response after exactly [k]
    requests and [k - 1] sleeps, the last event being the callback on
    the terminal status.  The script, on statuses it can print, also
    stops after exactly [k] requests and [k - 1] sleeps, but it hands no
    response back: on [success] it prints the first transaction hash
    and returns nothing (a hash that cannot be converted to a string
    makes it throw a [TypeError] there), and it throws
    [Relay failed: <status>] on [failure] and on [refund]. *)
Theorem pollStatus_stops_at_first_terminal :
  (forall U app rid (cb : option (Callback U)) maxAttempts intervalMs
          (w : World U) sts fin u',
      Z.of_nat (List.length sts) < maxAttempts ->
      serves answer w (sts ++ [fin]) ->
      Forall (fun j => is_pending (terminal_set app) j = true) sts ->
      is_terminal (terminal_set app) fin = true ->
      feed cb (ui w) (sts ++ [fin]) = (u', None) ->
      let out := pollStatus_of app rid cb (Some maxAttempts) (Some intervalMs) w in
      fst out = Returned fin
      /\ trace (snd out) =
         trace w ++ flat_map (round rid cb intervalMs) sts ++ last_round rid cb fin
      /\ fetch_count (trace (snd out)) = (fetch_count (trace w) + S (List.length sts))%nat
      /\ sleep_log (trace (snd out)) =
         sleep_log (trace w) ++ repeat intervalMs (List.length sts))
  /\
  (forall U env rid (w : World U) sts fin,
      Z.of_nat (List.length sts) < 60 ->
      serves parsed w (sts ++ [fin]) ->
      Forall (fun j => is_pending script_terminal j = true) sts ->
      Forall (fun j => printable (status_value j) = true) sts ->
      is_terminal script_terminal fin = true ->
      let out := Script.pollStatus env rid w in
      fst out =
        (if strict_eq (status_value fin) "success" then
           if printable (Some (tx_value fin)) then Returned tt else Threw TypeError
         else Threw (Error ("Relay failed: " ++ shown (status_value fin))%string))
      /\ trace (snd out) =
         trace w ++ script_banner rid :: script_rounds env rid 0 sts
                 ++ script_last_round env rid (Z.of_nat (List.length sts)) fin
      /\ fetch_count (trace (snd out)) = (fetch_count (trace w) + S (List.length sts))%nat
      /\ sleep_log (trace (snd out)) =
         sleep_log (trace w) ++ repeat 5000 (List.length sts)).
Proof.
  split.
  - intros U app rid cb maxAttempts intervalMs w sts fin u' Hk Hs Hpend Hterm Hfeed out.
    subst out. rewrite (run_to_terminal app rid cb maxAttempts intervalMs sts fin w u')
      by assumption.
    cbn [fst snd trace]. repeat split.
    + rewrite !fetch_count_app, round_fetch_count, last_round_fetch_count. lia.
    + rewrite !sleep_log_app, round_sleep_log, last_round_sleep_log.
      now rewrite app_nil_r.
  - intros U env rid w sts fin Hk Hs Hpend Hshow Hterm out. subst out.
    rewrite (script_run_to_terminal env rid sts fin w) by assumption.
    cbn [fst snd trace]. repeat split.
    + change (script_banner rid :: ?l) with ([script_banner rid] ++ l).
      rewrite !fetch_count_app, script_rounds_fetch_count,
        script_last_round_fetch_count.
      change (fetch_count [script_banner rid]) with 0%nat. lia.
    + change (script_banner rid :: ?l) with ([script_banner rid] ++ l).
      rewrite !sleep_log_app, script_rounds_sleep_log, script_last_round_sleep_log.
      change (sleep_log [script_banner rid]) with (@nil Z).
      now rewrite app_nil_r.
Qed.

Lemma pollStatus_stops_at_first_terminal_witness :
  fst (pollStatus_of origin_subsidy "0xreq" (Some counting) (Some 5) (Some 10)
         (replying [status_body "pending"; status_body "success"]))
  = Returned (status_body "success").
Proof.
  refine (proj1 (proj1 pollStatus_stops_at_first_terminal nat origin_subsidy "0xreq"
                   (Some counting) 5 10
                   (replying [status_body "pending"; status_body "success"])
                   [status_body "pending"] (status_body "success") 2%nat _ _ _ _ _)).
  - cbn. lia.
  - served.
  - all_pending.
  - reflexivity.
  - reflexivity.
Defined.

(** C1 fails on the script: the first status is the terminal
    [failure], one request is made, and the run throws instead of
    returning the status response. *)
Lemma script_pollStatus_throws_on_failure :
  is_terminal script_terminal (status_body "failure") = true
  /\ fst (Script.pollStatus None "0xreq" (replying [status_body "failure"]))
     = Threw (Error "Relay failed: failure")
  /\ fetch_count (trace (snd (Script.pollStatus None "0xreq"
                                (replying [status_body "failure"])))) = 1%nat.
Proof. repeat split; vm_compute; reflexivity. Qed.

(** C2, as amended.  When none of the statuses of the first
    [maxAttempts] attempts is terminal (and the callback does not
    throw), the web applications make exactly [maxAttempts] requests
    and then throw an error whose message spells out [maxAttempts]:
    [Timed out after N attempts], [Polling timed out after N attempts].
    The script, on statuses it can print, makes exactly 60 requests and
    then throws the fixed message [Polling timed out]. *)
Theorem pollStatus_times_out_after_maxAttempts :
  (forall U app rid (cb : option (Callback U)) maxAttempts intervalMs
          (w : World U) sts u',
      Z.of_nat (List.length sts) = maxAttempts ->
      serves answer w sts ->
      Forall (fun j => is_pending (terminal_set app) j = true) sts ->
      feed cb (ui w) sts = (u', None) ->
      let out := pollStatus_of app rid cb (Some maxAttempts) (Some intervalMs) w in
      fst out = Threw (Error (timeout_message app maxAttempts))
      /\ (exists before,
             timeout_message app maxAttempts
             = (before ++ number_to_string maxAttempts ++ " attempts")%string)
      /\ fetch_count (trace (snd out))
         = (fetch_count (trace w) + Z.to_nat maxAttempts)%nat)
  /\
  (forall U env rid (w : World U) sts,
      List.length sts = 60%nat ->
      serves parsed w sts ->
      Forall (fun j => is_pending script_terminal j = true) sts ->
      Forall (fun j => printable (status_value j) = true) sts ->
      let out := Script.pollStatus env rid w in
      fst out = Threw (Error "Polling timed out")
      /\ fetch_count (trace (snd out)) = (fetch_count (trace w) + 60)%nat).
Proof.
  split.
  - intros U app rid cb maxAttempts intervalMs w sts u' Hlen Hs Hpend Hfeed out.
    subst out. rewrite (run_to_timeout app rid cb maxAttempts intervalMs sts w u')
      by assumption.
    cbn [fst snd trace]. repeat split.
    + destruct app; eexists; reflexivity.
    + rewrite fetch_count_app, round_fetch_count. lia.
  - intros U env rid w sts Hlen Hs Hpend Hshow out. subst out.
    rewrite (script_run_to_timeout env rid sts w) by assumption.
    cbn [fst snd trace]. split; [reflexivity|].
    change (script_banner rid :: ?l) with ([script_banner rid] ++ l).
    rewrite !fetch_count_app, script_rounds_fetch_count.
    change (fetch_count [script_banner rid]) with 0%nat. lia.
Qed.

Lemma pollStatus_times_out_after_maxAttempts_witness :
  fst (pollStatus_of byo_eoa_permit "0xreq" (Some counting) (Some 2) (Some 10)
         (replying [status_body "pending"; status_body "waiting"]))
  = Threw (Error "Polling timed out after 2 attempts").
Proof.
  refine (proj1 (proj1 pollStatus_times_out_after_maxAttempts nat byo_eoa_permit "0xreq"
                   (Some counting) 2 10
                   (replying [status_body "pending"; status_body "waiting"])
                   [status_body "pending"; status_body "waiting"] 2%nat _ _ _ _)).
  - reflexivity.
  - served.
  - all_pending.
  - reflexivity.
Defined.

(** C2 fails on the script: after 60 attempts on a status that never
    becomes terminal it throws [Polling timed out], and that message
    does not hold the attempt count. *)
Lemma script_timeout_message_has_no_count :
  fst (Script.pollStatus None "0xreq" (always (status_body "pending")))
  = Threw (Error "Polling timed out")
  /\ fetch_count (trace (snd (Script.pollStatus None "0xreq"
                                (always (status_body "pending"))))) = 60%nat
  /\ includes "Polling timed out" (number_to_string 60) = false.
Proof. repeat split; vm_compute; reflexivity. Qed.

(** C3.  Whatever the server answers and however the run ends (a
    terminal status, the timeout, an exception), a callback handed to
    [pollStatus] has been called once after each request that fetched a
    status, with that status and before the next request: the requests
    and calls of the run are request 0, the call on its status,
    request 1, the call on its status, and so on up to the last
    request.  The state of the interface at the end is the one these
    calls lead to, one after the other, from the state at the start;
    and when one of them throws, it is the last and the run ends with
    its exception. *)
Theorem onUpdate_called_once_per_attempt :
  forall U app rid (cb : Callback U) maxAttempts intervalMs (w : World U),
    let out := pollStatus_of app rid (Some cb) maxAttempts intervalMs w in
    exists added thrown,
      let n := fetch_count added in
      let statuses := fetched answer (incoming w) n in
      trace (snd out) = trace w ++ added
      /\ calls added
         = flat_map (fun k => request rid :: match answer (incoming w k) with
                                             | Some j => [EvUpdate j]
                                             | None => []
                                             end) (seq 0 n)
      /\ update_log added = statuses
      /\ feed (Some cb) (ui w) statuses = (ui (snd out), thrown)
      /\ match thrown with
         | Some e => fst out = Threw e
         | None => True
         end.
Proof.
  intros U app rid cb maxAttempts intervalMs w out. subst out.
  destruct (pollStatus_of_calls app rid (Some cb) maxAttempts intervalMs w)
    as (added & thrown & Hadd & Hcalls & Hfeed & Hthrew).
  destruct (run_shape_of app rid (Some cb) maxAttempts intervalMs w)
    as (added' & Hadd' & _ & _ & Hupd & _).
  assert (added' = added) as ->.
  { rewrite Hadd in Hadd'. now apply app_inv_head in Hadd'. }
  exists added, thrown. cbv zeta. repeat split; assumption.
Qed.

Lemma onUpdate_called_once_per_attempt_witness :
  exists added thrown,
    trace (snd (pollStatus_of origin_subsidy "0xreq" (Some counting) (Some 3) None
                  (always (status_body "pending"))))
    = trace (always (status_body "pending")) ++ added
    /\ calls added
       = flat_map (fun k => request "0xreq"
                              :: match answer (incoming (always (status_body "pending")) k) with
                                 | Some j => [EvUpdate j]
                                 | None => []
                                 end) (seq 0 (fetch_count added))
    /\ update_log added
       = fetched answer (incoming (always (status_body "pending"))) (fetch_count added)
    /\ feed (Some counting) (ui (always (status_body "pending")))
            (fetched answer (incoming (always (status_body "pending"))) (fetch_count added))
       = (ui (snd (pollStatus_of origin_subsidy "0xreq" (Some counting) (Some 3) None
                     (always (status_body "pending")))), thrown)
    /\ match thrown with
       | Some e => fst (pollStatus_of origin_subsidy "0xreq" (Some counting) (Some 3) None
                          (always (status_body "pending"))) = Threw e
       | None => True
       end.
Proof.
  exact (onUpdate_called_once_per_attempt nat origin_subsidy "0xreq" counting
           (Some 3) None (always (status_body "pending"))).
Defined.

(** C4.  When the callback throws on attempt [i = S (length sts)],
    after attempts on which it returned and no status was terminal,
    [pollStatus] ends with that very exception after exactly [i]
    requests; the last event of the run is the callback's invocation. *)
Theorem onUpdate_exception_leaves_pollStatus :
  forall U app rid (cb : Callback U) maxAttempts intervalMs (w : World U)
         sts fin u1 u' e,
    Z.of_nat (List.length sts) < maxAttempts ->
    serves answer w (sts ++ [fin]) ->
    Forall (fun j => is_pending (terminal_set app) j = true) sts ->
    feed (Some cb) (ui w) sts = (u1, None) ->
    cb fin u1 = (u', Some e) ->
    let out := pollStatus_of app rid (Some cb) (Some maxAttempts) (Some intervalMs) w in
    fst out = Threw e
    /\ trace (snd out) =
       trace w ++ flat_map (round rid (Some cb) intervalMs) sts
               ++ [request rid; EvUpdate fin]
    /\ fetch_count (trace (snd out)) = (fetch_count (trace w) + S (List.length sts))%nat.
Proof.
  intros U app rid cb maxAttempts intervalMs w sts fin u1 u' e Hk Hs Hpend Hquiet Hthrow out.
  subst out.
  rewrite (run_to_callback_throw app rid (Some cb) maxAttempts intervalMs cb sts fin w u1 u' e)
    by auto.
  cbn [fst snd trace]. repeat split.
  rewrite !fetch_count_app, round_fetch_count. cbn. lia.
Qed.

Lemma onUpdate_exception_leaves_pollStatus_witness :
  fst (pollStatus_of origin_subsidy "0xreq" (Some (failing_at 1)) (Some 5) (Some 10)
         (always (status_body "pending")))
  = Threw (Error "render failed").
Proof.
  refine (proj1 (onUpdate_exception_leaves_pollStatus nat origin_subsidy "0xreq"
                   (failing_at 1) 5 10 (always (status_body "pending"))
                   [status_body "pending"] (status_body "pending")
                   1%nat 2%nat (Error "render failed") _ _ _ _ _)).
  - cbn. lia.
  - served.
  - all_pending.
  - reflexivity.
  - reflexivity.
Defined.

(** C5, as amended.  On an attempt that fetches a status outside the
    terminal set (a string that is not in it, or no string at all),
    with attempts left and a callback that returns, the loop of the web
    applications neither returns nor throws: it arms one timer of the
    fixed interval and goes on with the next attempt; [pollStatus]
    enters that loop at attempt 0.  The loop of the script does the
    same when the status can be put in the line it prints.  A status it
    cannot convert to a string (an object with a [toString] member of
    its own, an array holding one) makes it throw a [TypeError] right
    after the request, without a sleep.  Strings, numbers, booleans,
    [null] and a missing status can always be printed, and [waiting],
    [pending], [submitted] and [delayed] are in no terminal set. *)
Theorem nonterminal_status_sleeps_and_retries :
  (forall U app rid (cb : option (Callback U)) maxAttempts intervalMs (w : World U),
      pollStatus_of app rid cb (Some maxAttempts) (Some intervalMs) w
      = attempts_from app rid cb maxAttempts intervalMs 0 w)
  /\
  (forall U app rid (cb : option (Callback U)) maxAttempts intervalMs i
          (w : World U) j u',
      i < maxAttempts ->
      answer (incoming w 0%nat) = Some j ->
      is_pending (terminal_set app) j = true ->
      feed cb (ui w) [j] = (u', None) ->
      attempts_from app rid cb maxAttempts intervalMs i w
      = attempts_from app rid cb maxAttempts intervalMs (i + 1)
          (mkWorld (fun n => incoming w (S n))
                   (trace w ++ round rid cb intervalMs j) u'))
  /\
  (forall U env rid i (w : World U) j,
      i < 60 ->
      parsed (incoming w 0%nat) = Some j ->
      is_pending script_terminal j = true ->
      Script.poll_from env rid i w
      = if printable (status_value j) then
          Script.poll_from env rid (i + 1)
            (mkWorld (fun n => incoming w (S n))
                     (trace w ++ script_round env rid i j) (ui w))
        else
          (Threw TypeError,
           mkWorld (fun n => incoming w (S n))
                   (trace w ++ [script_request env rid]) (ui w)))
  /\
  (forall v, match v with
             | Some (JArr _) | Some (JObj _) => True
             | _ => printable v = true
             end)
  /\
  (forall s, In s ["waiting"; "pending"; "submitted"; "delayed"]%string ->
      set_has script_terminal (Some (JStr s)) = false
      /\ forall app, set_has (terminal_set app) (Some (JStr s)) = false).
Proof.
  repeat split.
  - intros. apply (f_equal (fun f => f w)), pollStatus_of_unfold.
  - intros U app rid cb maxAttempts intervalMs i w j u' Hi Hans Hpend Hfeed.
    unfold attempts_from.
    apply (loop_pending _ _ _ (getStatus_of_answer app)); assumption.
  - intros U env rid i w j Hi Hans Hpend.
    destruct (printable (status_value j)) eqn:Hshow.
    + now apply script_loop_pending.
    + now apply script_loop_unprintable with (j := j).
  - intros [[|[]| | | |]|]; exact I || reflexivity.
  - cbn [In] in H. intuition (subst; reflexivity).
  - intros app. cbn [In] in H. destruct app; intuition (subst; reflexivity).
Qed.

Lemma nonterminal_status_sleeps_and_retries_witness :
  attempts_from origin_subsidy "0xreq" (Some counting) 5 10 3
    (always (status_body "delayed"))
  = attempts_from origin_subsidy "0xreq" (Some counting) 5 10 (3 + 1)
      (mkWorld (fun n => incoming (always (status_body "delayed")) (S n))
               (trace (always (status_body "delayed"))
                ++ round "0xreq" (Some counting) 10 (status_body "delayed")) 1%nat).
Proof.
  refine (proj1 (proj2 nonterminal_status_sleeps_and_retries) nat origin_subsidy "0xreq"
            (Some counting) 5 10 3 (always (status_body "delayed"))
            (status_body "delayed") 1%nat _ _ _ _).
  - lia.
  - reflexivity.
  - reflexivity.
  - reflexivity.
Defined.

(** C5 fails on the script.  The status value [{"toString": null}] is
    outside the terminal set, and the web applications go on polling
    over it; the script throws a [TypeError] when it builds the line of
    the first attempt: one request, no sleep, no second attempt. *)
Lemma script_pollStatus_throws_on_unprintable_status :
  is_pending script_terminal unprintable_status = true
  /\ fst (Script.pollStatus None "0xreq" (always unprintable_status)) = Threw TypeError
  /\ trace (snd (Script.pollStatus None "0xreq" (always unprintable_status)))
     = [script_banner "0xreq"; script_request None "0xreq"]
  /\ sleep_log (trace (snd (pollStatus_of origin_subsidy "0xreq" None (Some 2) (Some 10)
                              (always unprintable_status)))) = [10; 10].
Proof. repeat split; vm_compute; reflexivity. Qed.

(** C7.  Left out, [maxAttempts] is 60 or 100 and [intervalMs] is 5000
    or 3000; the script has 60 and 5000 built in.  In every run, with
    the parameters given or not, the requests number at most
    [maxAttempts], and between any two consecutive requests exactly one
    timer is armed, of [intervalMs] whatever the attempt: the gaps of
    the run, one for each request but the last, all hold the one delay
    [intervalMs].  No other timer is armed. *)
Theorem pollStatus_fixed_interval :
  (forall app,
      (default_maxAttempts app = 60 \/ default_maxAttempts app = 100)
      /\ (default_intervalMs app = 3000 \/ default_intervalMs app = 5000))
  /\
  (forall U app rid (cb : option (Callback U)) (w : World U),
      pollStatus_of app rid cb None None w
      = pollStatus_of app rid cb (Some (default_maxAttempts app))
                      (Some (default_intervalMs app)) w)
  /\
  (forall U app rid (cb : option (Callback U)) maxAttempts intervalMs (w : World U),
      exists added m,
        trace (snd (pollStatus_of app rid cb maxAttempts intervalMs w)) = trace w ++ added
        /\ between_attempts added
           = repeat [or_default intervalMs (default_intervalMs app)]
                    (pred (fetch_count added))
        /\ sleep_log added = repeat (or_default intervalMs (default_intervalMs app)) m
        /\ Z.of_nat (fetch_count added)
           <= Z.max 0 (or_default maxAttempts (default_maxAttempts app)))
  /\
  (forall U env rid (w : World U),
      exists added m,
        trace (snd (Script.pollStatus env rid w)) = trace w ++ added
        /\ between_attempts added = repeat [5000] (pred (fetch_count added))
        /\ sleep_log added = repeat 5000 m
        /\ Z.of_nat (fetch_count added) <= 60).
Proof.
  repeat split.
  - destruct app; auto.
  - destruct app; auto.
  - intros U app rid cb w. destruct app; reflexivity.
  - intros U app rid cb maxAttempts intervalMs w.
    destruct (pollStatus_of_paced app rid cb maxAttempts intervalMs w)
      as (added & m & Hadd & Hm & Hcount & Hpaced & Hbeats).
    exists added, m. repeat split; auto.
    apply (between_attempts_paced _ _ m); [exact Hbeats|].
    exact (paced_count _ _ _ Hpaced).
  - intros U env rid w.
    destruct (script_pollStatus_paced env rid w)
      as (added & m & Hadd & Hm & Hcount & Hpaced & Hbeats).
    exists added, m. repeat split; auto.
    apply (between_attempts_paced _ _ m); [exact Hbeats|].
    exact (paced_count _ _ _ Hpaced).
Qed.

Lemma pollStatus_fixed_interval_witness :
  exists added m,
    trace (snd (pollStatus_of byo_eoa_permit "0xreq" (Some counting) None None
                  (replying [status_body "waiting"; status_body "pending";
                             status_body "success"])))
    = trace (replying [status_body "waiting"; status_body "pending";
                       status_body "success"]) ++ added
    /\ between_attempts added
       = repeat [or_default None (default_intervalMs byo_eoa_permit)]
                (pred (fetch_count added))
    /\ sleep_log added = repeat (or_default None (default_intervalMs byo_eoa_permit)) m
    /\ Z.of_nat (fetch_count added)
       <= Z.max 0 (or_default None (default_maxAttempts byo_eoa_permit)).
Proof.
  exact (proj1 (proj2 (proj2 pollStatus_fixed_interval)) nat byo_eoa_permit "0xreq"
           (Some counting) None None
           (replying [status_body "waiting"; status_body "pending";
                      status_body "success"])).
Defined.

(** C8.  A status response that [pollStatus] returns has its [status]
    field in the terminal set of the application. *)
Theorem pollStatus_returns_only_terminal :
  forall U app rid (cb : option (Callback U)) maxAttempts intervalMs (w : World U) j,
    fst (pollStatus_of app rid cb maxAttempts intervalMs w) = Returned j ->
    is_terminal (terminal_set app) j = true.
Proof.
  intros U app rid cb maxAttempts intervalMs w j Hret.
  destruct (run_shape_of app rid cb maxAttempts intervalMs w)
    as (added & _ & _ & _ & _ & Honly).
  now apply Honly.
Qed.

Lemma pollStatus_returns_only_terminal_witness :
  is_terminal (terminal_set byo_eoa_permit) (status_body "refunded") = true.
Proof.
  refine (pollStatus_returns_only_terminal nat byo_eoa_permit "0xreq" (Some counting)
            None None (replying [status_body "pending"; status_body "refunded"])
            (status_body "refunded") _).
  vm_compute. reflexivity.
Defined.

(** C9.  With [maxAttempts <= 0] the timeout error is thrown at once
    and the world is left as it was: no request, no callback
    invocation, no timer. *)
Theorem pollStatus_nonpositive_maxAttempts :
  forall U app rid (cb : option (Callback U)) maxAttempts intervalMs (w : World U),
    maxAttempts <= 0 ->
    pollStatus_of app rid cb (Some maxAttempts) intervalMs w
    = (Threw (Error (timeout_message app maxAttempts)), w).
Proof.
  intros U app rid cb maxAttempts intervalMs w Hmax.
  rewrite pollStatus_of_unfold. unfold attempts_from. cbn [or_default].
  apply loop_timeout. exact Hmax.
Qed.

Lemma pollStatus_nonpositive_maxAttempts_witness :
  pollStatus_of origin_subsidy "0xreq" (Some counting) (Some (-1)) None
    (always (status_body "success"))
  = (Threw (Error "Timed out after -1 attempts"), always (status_body "success")).
Proof.
  refine (pollStatus_nonpositive_maxAttempts nat origin_subsidy "0xreq" (Some counting)
            (-1) None (always (status_body "success")) _).
  lia.
Defined.

Lemma rounds_end_with_sleep {U} rid (cb : option (Callback U)) iv sts :
  sts <> [] ->
  exists before, flat_map (round rid cb iv) sts = before ++ [EvSleep iv].
Proof.
  intros Hne. destruct (exists_last Hne) as (front & j & ->).
  rewrite flat_map_app. cbn [flat_map]. rewrite app_nil_r. unfold round.
  exists (flat_map (round rid cb iv) front ++ request rid :: notice cb j).
  rewrite <- app_assoc. reflexivity.
Qed.

Lemma script_rounds_app env rid l1 : forall i l2,
  script_rounds env rid i (l1 ++ l2)
  = script_rounds env rid i l1
    ++ script_rounds env rid (i + Z.of_nat (List.length l1)) l2.
Proof.
  induction l1 as [|j rest IH]; intros i l2.
  - cbn [app script_rounds List.length]. now rewrite Z.add_0_r.
  - cbn [app script_rounds List.length]. rewrite IH, <- app_assoc.
    replace (i + Z.of_nat (S (List.length rest)))
      with (i + 1 + Z.of_nat (List.length rest)) by lia.
    reflexivity.
Qed.

Lemma script_rounds_end_with_sleep env rid i sts :
  sts <> [] ->
  exists before, script_rounds env rid i sts = before ++ [EvSleep 5000].
Proof.
  intros Hne. destruct (exists_last Hne) as (front & j & ->).
  rewrite script_rounds_app. cbn [script_rounds]. rewrite app_nil_r.
  unfold script_round.
  exists (script_rounds env rid i front
          ++ [script_request env rid;
              script_line (i + Z.of_nat (List.length front)) j]).
  rewrite <- app_assoc. reflexivity.
Qed.

(** C10.  A run that times out has slept after each of its attempts,
    the last one included: [maxAttempts] sleeps of [intervalMs] in the
    web applications, 60 sleeps of 5000 ms in the script (on statuses
    it can print), and the last thing the run did before throwing is a
    sleep. *)
Theorem pollStatus_sleeps_after_last_attempt :
  (forall U app rid (cb : option (Callback U)) maxAttempts intervalMs
          (w : World U) sts u',
      Z.of_nat (List.length sts) = maxAttempts ->
      serves answer w sts ->
      Forall (fun j => is_pending (terminal_set app) j = true) sts ->
      feed cb (ui w) sts = (u', None) ->
      let out := pollStatus_of app rid cb (Some maxAttempts) (Some intervalMs) w in
      fst out = Threw (Error (timeout_message app maxAttempts))
      /\ sleep_log (trace (snd out))
         = sleep_log (trace w) ++ repeat intervalMs (Z.to_nat maxAttempts)
      /\ (0 < maxAttempts ->
          exists before, trace (snd out) = before ++ [EvSleep intervalMs]))
  /\
  (forall U env rid (w : World U) sts,
      List.length sts = 60%nat ->
      serves parsed w sts ->
      Forall (fun j => is_pending script_terminal j = true) sts ->
      Forall (fun j => printable (status_value j) = true) sts ->
      let out := Script.pollStatus env rid w in
      fst out = Threw (Error "Polling timed out")
      /\ sleep_log (trace (snd out)) = sleep_log (trace w) ++ repeat 5000 60
      /\ exists before, trace (snd out) = before ++ [EvSleep 5000]).
Proof.
  split.
  - intros U app rid cb maxAttempts intervalMs w sts u' Hlen Hs Hpend Hfeed out.
    subst out. rewrite (run_to_timeout app rid cb maxAttempts intervalMs sts w u')
      by assumption.
    cbn [fst snd trace]. repeat split.
    + rewrite sleep_log_app, round_sleep_log. do 2 f_equal. lia.
    + intros Hpos.
      destruct (rounds_end_with_sleep rid cb intervalMs sts) as [before Hb].
      { destruct sts; [cbn in Hlen; lia | discriminate]. }
      exists (trace w ++ before). rewrite Hb, app_assoc. reflexivity.
  - intros U env rid w sts Hlen Hs Hpend Hshow out. subst out.
    rewrite (script_run_to_timeout env rid sts w) by assumption.
    cbn [fst snd trace]. repeat split.
    + change (script_banner rid :: ?l) with ([script_banner rid] ++ l).
      rewrite !sleep_log_app, script_rounds_sleep_log, Hlen. reflexivity.
    + destruct (script_rounds_end_with_sleep env rid 0 sts) as [before Hb].
      { destruct sts; discriminate. }
      exists (trace w ++ script_banner rid :: before).
      rewrite Hb, <- app_assoc. reflexivity.
Qed.

Lemma pollStatus_sleeps_after_last_attempt_witness :
  sleep_log (trace (snd (pollStatus_of origin_subsidy "0xreq" (Some counting)
                           (Some 2) (Some 10)
                           (replying [status_body "pending"; status_body "waiting"]))))
  = [10; 10].
Proof.
  refine (proj1 (proj2 (proj1 pollStatus_sleeps_after_last_attempt nat origin_subsidy
                          "0xreq" (Some counting) 2 10
                          (replying [status_body "pending"; status_body "waiting"])
                          [status_body "pending"; status_body "waiting"] 2%nat
                          _ _ _ _))).
  - reflexivity.
  - served.
  - all_pending.
  - reflexivity.
Defined.

(** C6, as amended.  Given a response, each helper throws when the
    response is not ok.  [relayFetch] throws an error whose message
    holds the HTTP status code followed by the body as text.
    [getQuote], [execute] and [getStatus] of origin-subsidy and
    [getStatus] of byo-eoa-permit throw one whose message holds the
    status code followed by the parsed body serialised again, which is
    [{}] when the body is not JSON.  [getQuote] of byo-eoa-permit
    throws one whose message holds the status code followed by the
    text of the body's [message] when that is truthy, else of its
    [error] when that is truthy, else by the serialised body; but when
    the body is the JSON value [null], or when the member it picked
    cannot be converted to a string, it throws a [TypeError] instead,
    which carries neither the status code nor the body.  On an ok
    response each helper returns the parsed body when the body is
    JSON, and lets the parse error of [res.json()] through when it is
    not. *)
Theorem relay_helpers_on_a_response :
  forall U (w : World U) res,
    incoming w 0%nat = Some res ->
    (ok res = false ->
       let code := number_to_string (status res) in
       let detail := JSON_stringify (res_json_or_empty res) in
       (forall params, fst (OriginSubsidy.getQuote params w)
          = Threw (Error ("Quote failed (" ++ code ++ "): " ++ detail)%string))
       /\ (forall params, fst (OriginSubsidy.execute params w)
          = Threw (Error ("Execute failed (" ++ code ++ "): " ++ detail)%string))
       /\ (forall rid, fst (OriginSubsidy.getStatus rid w)
          = Threw (Error ("Status check failed (" ++ code ++ "): " ++ detail)%string))
       /\ (forall rid, fst (ByoEoaPermit.getStatus rid w)
          = Threw (Error ("Status check failed (" ++ code ++ "): " ++ detail)%string))
       /\ (forall params, fst (ByoEoaPermit.getQuote params w)
          = match res_json_or_empty res with
            | JNull => Threw TypeError
            | err =>
                let said v :=
                  if printable v
                  then Threw (Error ("Quote failed (" ++ code ++ "): " ++ shown v)%string)
                  else Threw TypeError in
                if truthy (member err "message") then said (member err "message")
                else if truthy (member err "error") then said (member err "error")
                else Threw (Error ("Quote failed (" ++ code ++ "): " ++ detail)%string)
            end)
       /\ (forall env path body, fst (Script.relayFetch env path body w)
          = Threw (Error (path ++ " failed (" ++ code ++ "): " ++ text res)%string)))
    /\
    (ok res = true ->
       let outcome := match json res with
                      | Some j => Returned j
                      | None => Threw SyntaxError
                      end in
       (forall params, fst (OriginSubsidy.getQuote params w) = outcome)
       /\ (forall params, fst (OriginSubsidy.execute params w) = outcome)
       /\ (forall rid, fst (OriginSubsidy.getStatus rid w) = outcome)
       /\ (forall rid, fst (ByoEoaPermit.getStatus rid w) = outcome)
       /\ (forall params, fst (ByoEoaPermit.getQuote params w) = outcome)
       /\ (forall env path body, fst (Script.relayFetch env path body w) = outcome)).
Proof.
  intros U w res Hinc. split; intros Hok; cbv zeta.
  - repeat split; intros;
      unfold OriginSubsidy.getQuote, OriginSubsidy.execute, OriginSubsidy.getStatus,
        ByoEoaPermit.getStatus, ByoEoaPermit.getQuote, Script.relayFetch, bind, fetch;
      rewrite Hinc, Hok; cbn [negb]; try reflexivity.
    unfold ByoEoaPermit.error_text, member.
    pose proof (JSON_stringify_nonempty (res_json_or_empty res)) as Hne.
    destruct (String.eqb_spec (JSON_stringify (res_json_or_empty res)) EmptyString)
      as [Hempty|_]; [contradiction|]. cbn [negb].
    destruct (res_json_or_empty res) as [| | | | |] eqn:Herr;
      try reflexivity; cbn [get_prop truthy lift ret throw]; try reflexivity.
    destruct (truthy (assoc "message" fields)).
    { rewrite to_string_cases. destruct (printable _); reflexivity. }
    destruct (truthy (assoc "error" fields)).
    { rewrite to_string_cases. destruct (printable _); reflexivity. }
    reflexivity.
  - repeat split; intros;
      unfold OriginSubsidy.getQuote, OriginSubsidy.execute, OriginSubsidy.getStatus,
        ByoEoaPermit.getStatus, ByoEoaPermit.getQuote, Script.relayFetch, bind, fetch,
        res_json;
      rewrite Hinc, Hok; cbn [negb]; destruct (json res); reflexivity.
Qed.

Lemma relay_helpers_on_a_response_witness :
  fst (Script.relayFetch None "/execute" (JObj [])
         (responding (mkResponse false 400 "Bad Request" "no route" None)))
  = Threw (Error "/execute failed (400): no route").
Proof.
  refine (proj2 (proj2 (proj2 (proj2 (proj2
            (proj1 (relay_helpers_on_a_response nat
                      (responding (mkResponse false 400 "Bad Request" "no route" None))
                      (mkResponse false 400 "Bad Request" "no route" None) _) _)))))
            None "/execute" (JObj [])).
  - reflexivity.
  - reflexivity.
Defined.

(** C6 fails three times.  On a 502 whose body is the text
    [Bad Gateway], [getStatus] throws [Status check failed (502): {}],
    a message without the body; on an ok response whose body is not
    JSON it throws although the response is ok; and on a 500 whose
    body is [null], [getQuote] of byo-eoa-permit throws a [TypeError]
    and not an error with the status code. *)
Lemma getStatus_message_drops_text_body :
  fst (OriginSubsidy.getStatus "0xreq"
         (responding (mkResponse false 502 "Bad Gateway" "Bad Gateway" None)))
  = Threw (Error "Status check failed (502): {}")
  /\ includes "Status check failed (502): {}" "Bad Gateway" = false
  /\ fst (OriginSubsidy.getStatus "0xreq"
            (responding (mkResponse true 200 "OK" "pong" None)))
     = Threw SyntaxError
  /\ fst (ByoEoaPermit.getQuote (JObj [])
            (responding (mkResponse false 500 "Internal Server Error" "null" (Some JNull))))
     = Threw TypeError.
Proof. repeat split; vm_compute; reflexivity. Qed.


(** * Beyond the claims *)

(** ** When a status check fails *)

(** X1.  A status check that fails is not retried.  When the attempts
    before it fetched non-terminal statuses and the reply to the next
    request is no status (transport failure, response not ok, body not
    JSON), [pollStatus] of the web applications throws the error of
    [getStatus] right after that request: one request more than the
    statuses fetched, no sleep after it, and no callback invocation for
    it. *)
Theorem failed_status_check_ends_polling :
  forall U app rid (cb : option (Callback U)) maxAttempts intervalMs
         (w : World U) sts u',
    Z.of_nat (List.length sts) < maxAttempts ->
    serves answer w sts ->
    Forall (fun j => is_pending (terminal_set app) j = true) sts ->
    feed cb (ui w) sts = (u', None) ->
    answer (incoming w (List.length sts)) = None ->
    let out := pollStatus_of app rid cb (Some maxAttempts) (Some intervalMs) w in
    fst out = Threw (getStatus_error (incoming w (List.length sts)))
    /\ trace (snd out)
       = trace w ++ flat_map (round rid cb intervalMs) sts ++ [request rid]
    /\ fetch_count (trace (snd out)) = (fetch_count (trace w) + S (List.length sts))%nat
    /\ sleep_log (trace (snd out))
       = sleep_log (trace w) ++ repeat intervalMs (List.length sts)
    /\ ui (snd out) = u'.
Proof.
  intros U app rid cb maxAttempts intervalMs w sts u' Hk Hs Hpend Hfeed Hfail out.
  subst out. rewrite (run_rounds app rid cb maxAttempts intervalMs sts w u') by (auto; lia).
  rewrite attempts_from_fetch_fails; cbn [incoming]; try lia;
    rewrite ?Nat.add_0_r; auto.
  cbn [fst snd sent trace ui]. rewrite <- app_assoc. repeat split.
  - rewrite !fetch_count_app, round_fetch_count. cbn. lia.
  - rewrite !sleep_log_app, round_sleep_log. cbn. now rewrite app_nil_r.
Qed.

Lemma failed_status_check_ends_polling_witness :
  fst (pollStatus_of origin_subsidy "0xreq" (Some counting) (Some 5) (Some 10)
         (mkWorld (fun n => match n with
                            | O => Some (ok_response (status_body "pending"))
                            | _ => Some (mkResponse false 503 "Service Unavailable"
                                                    "busy" None)
                            end) [] 0%nat))
  = Threw (Error "Status check failed (503): {}").
Proof.
  refine (proj1 (failed_status_check_ends_polling nat origin_subsidy "0xreq"
                   (Some counting) 5 10
                   (mkWorld (fun n => match n with
                                      | O => Some (ok_response (status_body "pending"))
                                      | _ => Some (mkResponse false 503
                                                     "Service Unavailable" "busy" None)
                                      end) [] 0%nat)
                   [status_body "pending"] 1%nat _ _ _ _ _)).
  - cbn. lia.
  - served.
  - all_pending.
  - reflexivity.
  - reflexivity.
Defined.

(** ** A status body that is [null] *)

Lemma attempts_from_null {U} app rid (cb : option (Callback U))
    maxAttempts intervalMs i (w : World U) u' :
  i < maxAttempts ->
  answer (incoming w 0%nat) = Some JNull ->
  feed cb (ui w) [JNull] = (u', None) ->
  attempts_from app rid cb maxAttempts intervalMs i w
  = (Threw TypeError,
     mkWorld (fun n => incoming w (S n)) (trace w ++ last_round rid cb JNull) u').
Proof.
  intros Hi Hans Hfeed. rewrite attempts_from_unfold.
  destruct (Z.ltb_spec i maxAttempts); [|lia].
  unfold bind at 1. rewrite (getStatus_of_answer app rid w JNull Hans).
  unfold last_round, notice. cbn [feed] in Hfeed.
  destruct cb as [f|].
  - unfold bind, notify, sent. cbn [ui trace incoming].
    destruct (f JNull (ui w)) as [u1 [e|]]; [discriminate|].
    injection Hfeed as ->. cbn [get_prop lift throw].
    rewrite <- !app_assoc. reflexivity.
  - injection Hfeed as <-. reflexivity.
Qed.

Lemma script_loop_null {U} env rid i (w : World U) :
  i < 60 ->
  parsed (incoming w 0%nat) = Some JNull ->
  Script.poll_from env rid i w
  = (Threw TypeError,
     mkWorld (fun n => incoming w (S n)) (trace w ++ [script_request env rid]) (ui w)).
Proof.
  intros Hi Hans. rewrite script_loop_unfold.
  destruct (Z.ltb_spec i 60); [|lia].
  destruct (parsed_reply w JNull Hans) as (res & Hinc & Hjson).
  unfold bind, fetch, res_json. rewrite Hinc, Hjson. reflexivity.
Qed.

(** X2.  A reply whose body is the JSON value [null] passes for a
    status response until its [status] is read.  In the web
    applications the progress callback is still invoked, with [null],
    and then the read throws a [TypeError] that ends the run; the
    script (after statuses it could print) throws the [TypeError]
    before it prints the line of that attempt.  Neither sleeps nor asks
    again. *)
Theorem null_status_body_ends_polling :
  (forall U app rid (cb : option (Callback U)) maxAttempts intervalMs
          (w : World U) sts u',
      Z.of_nat (List.length sts) < maxAttempts ->
      serves answer w (sts ++ [JNull]) ->
      Forall (fun j => is_pending (terminal_set app) j = true) sts ->
      feed cb (ui w) (sts ++ [JNull]) = (u', None) ->
      let out := pollStatus_of app rid cb (Some maxAttempts) (Some intervalMs) w in
      fst out = Threw TypeError
      /\ trace (snd out)
         = trace w ++ flat_map (round rid cb intervalMs) sts ++ last_round rid cb JNull)
  /\
  (forall U env rid (w : World U) sts,
      Z.of_nat (List.length sts) < 60 ->
      serves parsed w (sts ++ [JNull]) ->
      Forall (fun j => is_pending script_terminal j = true) sts ->
      Forall (fun j => printable (status_value j) = true) sts ->
      let out := Script.pollStatus env rid w in
      fst out = Threw TypeError
      /\ trace (snd out)
         = trace w ++ script_banner rid :: script_rounds env rid 0 sts
                   ++ [script_request env rid]).
Proof.
  split.
  - intros U app rid cb maxAttempts intervalMs w sts u' Hk Hs Hpend Hfeed out.
    subst out.
    destruct (serves_app _ _ _ _ Hs) as [Hsts Hfin].
    destruct (feed_app_quiet _ _ _ _ _ Hfeed) as (u1 & Hquiet & Hlast).
    rewrite (run_rounds app rid cb maxAttempts intervalMs sts w u1) by (auto; lia).
    rewrite (attempts_from_null app rid cb maxAttempts intervalMs _ _ u');
      cbn [incoming ui trace]; rewrite ?Nat.add_0_r; auto.
    cbn [fst snd trace]. now rewrite <- app_assoc.
  - intros U env rid w sts Hk Hs Hpend Hshow out. subst out.
    destruct (serves_app _ _ _ _ Hs) as [Hsts Hfin].
    rewrite (script_run_rounds env rid sts w) by (auto; lia).
    rewrite script_loop_null; cbn [incoming ui trace]; rewrite ?Nat.add_0_r; auto.
    cbn [fst snd trace]. now rewrite <- app_assoc.
Qed.

Lemma null_status_body_ends_polling_witness :
  trace (snd (pollStatus_of byo_eoa_permit "0xreq" (Some counting) (Some 5) (Some 10)
                (replying [JNull])))
  = [request "0xreq"; EvUpdate JNull].
Proof.
  refine (proj2 (proj1 null_status_body_ends_polling nat byo_eoa_permit "0xreq"
                   (Some counting) 5 10 (replying [JNull]) [] 1%nat _ _ _ _)).
  - cbn. lia.
  - served.
  - all_pending.
  - reflexivity.
Defined.

(** ** Runs that do not depend on the bound *)

Lemma attempts_from_more_attempts {U} app rid (cb : option (Callback U)) intervalMs
    maxAttempts maxAttempts' n :
  maxAttempts <= maxAttempts' ->
  forall i (w w' : World U) j,
    Z.to_nat (maxAttempts - i) = n ->
    attempts_from app rid cb maxAttempts intervalMs i w = (Returned j, w') ->
    attempts_from app rid cb maxAttempts' intervalMs i w = (Returned j, w').
Proof.
  intros Hle. induction n as [|n IH]; intros i w w' j Hn Hrun.
  - unfold attempts_from in Hrun. rewrite loop_timeout in Hrun by lia. discriminate.
  - rewrite attempts_from_unfold in Hrun |- *.
    destruct (Z.ltb_spec i maxAttempts); [|lia].
    destruct (Z.ltb_spec i maxAttempts'); [|lia].
    unfold bind at 1 in Hrun. unfold bind at 1.
    destruct (getStatus_of app rid w) as [[st|e] w1]; [|exact Hrun].
    unfold bind at 1 in Hrun. unfold bind at 1.
    destruct (notify cb st w1) as [[[]|e] w2]; [|exact Hrun].
    unfold bind at 1 in Hrun. unfold bind at 1.
    destruct (lift (get_prop st "status") w2) as [[s|e] w3]; [|exact Hrun].
    destruct (set_has (terminal_set app) s); [exact Hrun|].
    unfold bind in Hrun |- *.
    destruct (sleep intervalMs w3) as [[[]|e] w4]; [|exact Hrun].
    apply (IH (i + 1)); [lia | exact Hrun].
Qed.

(** X3.  Raising [maxAttempts] never changes a run that returned a
    status: with any larger bound [pollStatus] returns the same status
    and leaves the same world (same requests, callback invocations and
    sleeps). *)
Theorem more_attempts_keep_the_result :
  forall U app rid (cb : option (Callback U)) maxAttempts maxAttempts' intervalMs
         (w w' : World U) j,
    maxAttempts <= maxAttempts' ->
    pollStatus_of app rid cb (Some maxAttempts) (Some intervalMs) w = (Returned j, w') ->
    pollStatus_of app rid cb (Some maxAttempts') (Some intervalMs) w = (Returned j, w').
Proof.
  intros U app rid cb maxAttempts maxAttempts' intervalMs w w' j Hle Hrun.
  pose proof (pollStatus_of_unfold app rid cb (Some maxAttempts) (Some intervalMs)) as E.
  pose proof (pollStatus_of_unfold app rid cb (Some maxAttempts') (Some intervalMs)) as E'.
  cbn [or_default] in E, E'. rewrite E in Hrun. rewrite E'.
  eapply attempts_from_more_attempts; eauto.
Qed.

Lemma more_attempts_keep_the_result_witness :
  fst (pollStatus_of origin_subsidy "0xreq" (Some counting) (Some 60) (Some 10)
         (replying [status_body "pending"; status_body "success"]))
  = Returned (status_body "success").
Proof.
  refine (f_equal fst
            (more_attempts_keep_the_result nat origin_subsidy "0xreq" (Some counting)
               2 60 10 (replying [status_body "pending"; status_body "success"])
               (snd (pollStatus_of origin_subsidy "0xreq" (Some counting) (Some 2)
                       (Some 10)
                       (replying [status_body "pending"; status_body "success"])))
               (status_body "success") _ _)).
  - lia.
  - reflexivity.
Defined.

(** ** Sleeps and requests *)

Lemma beats_of_paced {A} (r : Result A) tr ms m :
  paced r (fetch_count tr) m ->
  beats tr = rhythm ms m ++ unanswered (fetch_count tr) m ->
  match r with
  | Returned _ => beats tr = rhythm ms m ++ [asked]
  | Threw _ => beats tr = rhythm ms m \/ beats tr = rhythm ms m ++ [asked]
  end.
Proof.
  unfold paced, unanswered. intros Hpaced Hbeats.
  assert (Hno : (S m =? m)%nat = false) by (apply Nat.eqb_neq; lia).
  destruct r as [a|e].
  - rewrite Hpaced, Hno in Hbeats. exact Hbeats.
  - destruct Hpaced as [Hp|Hp]; rewrite Hp in Hbeats.
    + left. now rewrite Nat.eqb_refl, app_nil_r in Hbeats.
    + right. now rewrite Hno in Hbeats.
Qed.

(** X4.  In every run, of the web applications and of the script,
    requests and timers alternate, starting with a request: the run is
    so many rounds of one request followed by one timer of the
    interval, and then at most one request more.  A run that returns
    ends with that request, so it never sleeps after the status it
    returns; a run that throws ends with it too (an error inside an
    attempt) or with the timer of its last round (the timeout). *)
Theorem sleeps_alternate_with_requests :
  (forall U app rid (cb : option (Callback U)) maxAttempts intervalMs (w : World U),
      let out := pollStatus_of app rid cb (Some maxAttempts) (Some intervalMs) w in
      exists added m,
        trace (snd out) = trace w ++ added
        /\ match fst out with
           | Returned _ => beats added = rhythm intervalMs m ++ [asked]
           | Threw _ => beats added = rhythm intervalMs m
                        \/ beats added = rhythm intervalMs m ++ [asked]
           end
        /\ sleep_log added = repeat intervalMs m
        /\ match fst out with
           | Returned _ => fetch_count added = S m
           | Threw _ => fetch_count added = m \/ fetch_count added = S m
           end)
  /\
  (forall U env rid (w : World U),
      let out := Script.pollStatus env rid w in
      exists added m,
        trace (snd out) = trace w ++ added
        /\ match fst out with
           | Returned _ => beats added = rhythm 5000 m ++ [asked]
           | Threw _ => beats added = rhythm 5000 m
                        \/ beats added = rhythm 5000 m ++ [asked]
           end
        /\ sleep_log added = repeat 5000 m
        /\ match fst out with
           | Returned _ => fetch_count added = S m
           | Threw _ => fetch_count added = m \/ fetch_count added = S m
           end).
Proof.
  split.
  - intros U app rid cb maxAttempts intervalMs w out. subst out.
    destruct (pollStatus_of_paced app rid cb (Some maxAttempts) (Some intervalMs) w)
      as (added & m & Hadd & Hm & _ & Hpaced & Hbeats).
    cbn [or_default] in *. exists added, m.
    split; [exact Hadd|]. split; [now apply beats_of_paced|].
    split; [exact Hm | exact Hpaced].
  - intros U env rid w out. subst out.
    destruct (script_pollStatus_paced env rid w)
      as (added & m & Hadd & Hm & _ & Hpaced & Hbeats).
    exists added, m.
    split; [exact Hadd|]. split; [now apply beats_of_paced|].
    split; [exact Hm | exact Hpaced].
Qed.

Lemma sleeps_alternate_with_requests_witness :
  exists added m,
    trace (snd (pollStatus_of origin_subsidy "0xreq" (Some counting) (Some 5) (Some 10)
                  (replying [status_body "pending"; status_body "success"])))
    = trace (replying [status_body "pending"; status_body "success"]) ++ added
    /\ match fst (pollStatus_of origin_subsidy "0xreq" (Some counting) (Some 5) (Some 10)
                    (replying [status_body "pending"; status_body "success"])) with
       | Returned _ => beats added = rhythm 10 m ++ [asked]
       | Threw _ => beats added = rhythm 10 m \/ beats added = rhythm 10 m ++ [asked]
       end
    /\ sleep_log added = repeat 10 m
    /\ match fst (pollStatus_of origin_subsidy "0xreq" (Some counting) (Some 5) (Some 10)
                    (replying [status_body "pending"; status_body "success"])) with
       | Returned _ => fetch_count added = S m
       | Threw _ => fetch_count added = m \/ fetch_count added = S m
       end.
Proof.
  exact (proj1 sleeps_alternate_with_requests nat origin_subsidy "0xreq" (Some counting)
           5 10 (replying [status_body "pending"; status_body "success"])).
Defined.

(** The time a trace spent sleeping, in milliseconds. *)
Definition total_sleep (tr : list Event) : Z := fold_right Z.add 0 (sleep_log tr).

Lemma total_sleep_repeat iv m : fold_right Z.add 0 (repeat iv m) = Z.of_nat m * iv.
Proof.
  induction m as [|m IH]; [reflexivity|].
  cbn [repeat fold_right]. rewrite IH. lia.
Qed.

Lemma paced_sleeps_le {A} (r : Result A) requests sleeps :
  paced r requests sleeps -> (sleeps <= requests)%nat.
Proof. unfold paced. destruct r; lia. Qed.

(** X5.  A run never sleeps longer than [maxAttempts] intervals in all.
    With both parameters left out that is 300 000 ms in either web
    application (60 x 5000 and 100 x 3000), and the script has the same
    bound built in. *)
Theorem polling_sleeps_five_minutes_at_most :
  (forall U app rid (cb : option (Callback U)) maxAttempts intervalMs (w : World U),
      0 <= intervalMs ->
      exists added,
        trace (snd (pollStatus_of app rid cb (Some maxAttempts) (Some intervalMs) w))
        = trace w ++ added
        /\ total_sleep added <= Z.max 0 maxAttempts * intervalMs)
  /\
  (forall U app rid (cb : option (Callback U)) (w : World U),
      exists added,
        trace (snd (pollStatus_of app rid cb None None w)) = trace w ++ added
        /\ total_sleep added <= 300000)
  /\
  (forall U env rid (w : World U),
      exists added,
        trace (snd (Script.pollStatus env rid w)) = trace w ++ added
        /\ total_sleep added <= 300000).
Proof.
  repeat split.
  - intros U app rid cb maxAttempts intervalMs w Hiv.
    destruct (pollStatus_of_paced app rid cb (Some maxAttempts) (Some intervalMs) w)
      as (added & m & Hadd & Hm & Hcount & Hpaced & _).
    apply paced_sleeps_le in Hpaced. cbn [or_default] in *.
    exists added. split; [exact Hadd|].
    unfold total_sleep. rewrite Hm, total_sleep_repeat. nia.
  - intros U app rid cb w.
    destruct (pollStatus_of_paced app rid cb None None w)
      as (added & m & Hadd & Hm & Hcount & Hpaced & _).
    apply paced_sleeps_le in Hpaced.
    exists added. split; [exact Hadd|].
    unfold total_sleep. rewrite Hm, total_sleep_repeat.
    destruct app; cbn [or_default default_intervalMs default_maxAttempts] in *; lia.
  - intros U env rid w.
    destruct (script_pollStatus_paced env rid w)
      as (added & m & Hadd & Hm & Hcount & Hpaced & _).
    apply paced_sleeps_le in Hpaced.
    exists added. split; [exact Hadd|].
    unfold total_sleep. rewrite Hm, total_sleep_repeat. lia.
Qed.

Lemma polling_sleeps_five_minutes_at_most_witness :
  exists added,
    trace (snd (pollStatus_of byo_eoa_permit "0xreq" (Some counting) (Some 4) (Some 250)
                  (always (status_body "pending"))))
    = trace (always (status_body "pending")) ++ added
    /\ total_sleep added <= Z.max 0 4 * 250.
Proof.
  refine (proj1 polling_sleeps_five_minutes_at_most nat byo_eoa_permit "0xreq"
            (Some counting) 4 250 (always (status_body "pending")) _).
  lia.
Defined.

(** ** The script does not look at the HTTP status *)

(** Two replies the script cannot tell apart: both are transport
    failures, or both are responses with the same parsed body. *)
Definition same_body (r r' : option Response) : Prop :=
  match r, r' with
  | None, None => True
  | Some a, Some b => json a = json b
  | _, _ => False
  end.

Lemma script_loop_same_body {U} env rid n :
  forall i (inc inc' : nat -> option Response) tr (u u' : U),
    Z.to_nat (60 - i) = n ->
    (forall k, same_body (inc k) (inc' k)) ->
    fst (Script.poll_from env rid i (mkWorld inc tr u))
    = fst (Script.poll_from env rid i (mkWorld inc' tr u'))
    /\ trace (snd (Script.poll_from env rid i (mkWorld inc tr u)))
       = trace (snd (Script.poll_from env rid i (mkWorld inc' tr u'))).
Proof.
  induction n as [|n IH]; intros i inc inc' tr u u' Hn Hsame.
  - rewrite !script_loop_timeout by lia. split; reflexivity.
  - rewrite (script_loop_unfold env rid i). destruct (Z.ltb_spec i 60); [|lia].
    unfold bind, fetch. cbn [incoming trace ui].
    pose proof (Hsame 0%nat) as H0. unfold same_body in H0.
    destruct (inc 0%nat) as [res|], (inc' 0%nat) as [res'|]; try contradiction;
      [|split; reflexivity].
    unfold res_json. rewrite H0.
    destruct (json res') as [j|]; cbn [ret throw]; [|split; reflexivity].
    destruct (get_prop j "status") as [e|s]; cbn [lift ret throw];
      [split; reflexivity|].
    destruct (to_string s) as [e|line]; cbn [lift ret throw]; [split; reflexivity|].
    unfold console_log, emit. cbn [incoming trace ui].
    destruct (strict_eq s "success").
    { destruct (get_prop j "txHashes") as [e|tx]; cbn [lift ret throw];
        [split; reflexivity|].
      destruct (json_to_string (nullish_or (opt_index0 tx) (JStr "N/A")));
        cbn [lift ret throw]; split; reflexivity. }
    destruct (strict_eq s "failure" || strict_eq s "refund").
    { destruct (to_string s); cbn [lift ret throw]; split; reflexivity. }
    unfold sleep, emit. cbn [incoming trace ui].
    apply IH; [lia|]. intros k. apply Hsame.
Qed.

(** X6.  The script never reads [res.ok] or [res.status]: two servers
    whose replies carry the same parsed bodies, whatever their HTTP
    statuses, lead it to the same result and the same trace.  An error
    response with a JSON body is read like a status response. *)
Theorem script_ignores_http_status :
  forall U env rid (w w' : World U),
    trace w = trace w' ->
    (forall k, same_body (incoming w k) (incoming w' k)) ->
    fst (Script.pollStatus env rid w) = fst (Script.pollStatus env rid w')
    /\ trace (snd (Script.pollStatus env rid w))
       = trace (snd (Script.pollStatus env rid w')).
Proof.
  intros U env rid [inc tr u] [inc' tr' u'] Htr Hsame. cbn [trace incoming] in *.
  subst tr'. unfold Script.pollStatus, bind, console_log, emit. cbn [incoming trace ui].
  now apply (script_loop_same_body env rid 60 0).
Qed.

Lemma script_ignores_http_status_witness :
  fst (Script.pollStatus None "0xreq"
         (responding (mkResponse false 500 "Internal Server Error"
                                 (JSON_stringify (status_body "success"))
                                 (Some (status_body "success")))))
  = fst (Script.pollStatus None "0xreq" (always (status_body "success"))).
Proof.
  refine (proj1 (script_ignores_http_status nat None "0xreq"
                   (responding (mkResponse false 500 "Internal Server Error"
                                           (JSON_stringify (status_body "success"))
                                           (Some (status_body "success"))))
                   (always (status_body "success")) _ _)).
  - reflexivity.
  - intros k. reflexivity.
Defined.

(** ** The error text of byo-eoa-permit *)

(** X7.  The last alternative of
    [err.message || err.error || JSON.stringify(err) || res.statusText]
    is never taken: [JSON.stringify] of a parsed body is never empty,
    so the text of the error does not depend on the response beyond
    its body. *)
Theorem error_text_ignores_statusText :
  forall err res res',
    ByoEoaPermit.error_text err res = ByoEoaPermit.error_text err res'.
Proof.
  intros err res res'. unfold ByoEoaPermit.error_text.
  destruct (get_prop err "message") as [e|message]; [reflexivity|].
  destruct (truthy message); [reflexivity|].
  destruct (get_prop err "error") as [e|error]; [reflexivity|].
  destruct (truthy error); [reflexivity|].
  destruct (String.eqb_spec (JSON_stringify err) EmptyString) as [Hempty|Hne].
  - now apply JSON_stringify_nonempty in Hempty.
  - reflexivity.
Qed.

(** X8.  What [getQuote] of byo-eoa-permit throws on a response that
    is not ok depends on the body: a non-empty string under [message]
    is shown as it is after the status code; a body that is not JSON
    is shown as [{}]; and a body that is the JSON value [null] makes
    the helper throw a [TypeError], so that neither the status code
    nor the prefix reaches the caller. *)
Theorem byo_getQuote_error_text :
  forall U (w : World U) res params,
    incoming w 0%nat = Some res ->
    ok res = false ->
    let code := number_to_string (status res) in
    (forall fields m,
        json res = Some (JObj fields) ->
        assoc "message" fields = Some (JStr m) ->
        m <> EmptyString ->
        fst (ByoEoaPermit.getQuote params w)
        = Threw (Error ("Quote failed (" ++ code ++ "): " ++ m)%string))
    /\ (json res = None ->
        fst (ByoEoaPermit.getQuote params w)
        = Threw (Error ("Quote failed (" ++ code ++ "): {}")%string))
    /\ (json res = Some JNull ->
        fst (ByoEoaPermit.getQuote params w) = Threw TypeError).
Proof.
  intros U w res params Hinc Hok code. subst code.
  repeat split; intros;
    unfold ByoEoaPermit.getQuote, bind, fetch; rewrite Hinc, Hok; cbn [negb];
    unfold res_json_or_empty, ByoEoaPermit.error_text.
  - rewrite H. cbn [get_prop]. rewrite H0. cbn [truthy].
    destruct (String.eqb_spec m EmptyString); [contradiction|]. reflexivity.
  - rewrite H. reflexivity.
  - rewrite H. reflexivity.
Qed.

Lemma byo_getQuote_error_text_witness :
  fst (ByoEoaPermit.getQuote (JObj [])
         (responding (mkResponse false 400 "Bad Request"
                        (JSON_stringify (JObj [("message", JStr "no routes found")]))
                        (Some (JObj [("message", JStr "no routes found")])))))
  = Threw (Error "Quote failed (400): no routes found").
Proof.
  refine (proj1 (byo_getQuote_error_text nat
                   (responding (mkResponse false 400 "Bad Request"
                        (JSON_stringify (JObj [("message", JStr "no routes found")]))
                        (Some (JObj [("message", JStr "no routes found")]))))
                   (mkResponse false 400 "Bad Request"
                        (JSON_stringify (JObj [("message", JStr "no routes found")]))
                        (Some (JObj [("message", JStr "no routes found")])))
                   (JObj []) _ _)
            [("message", JStr "no routes found")] "no routes found" _ _ _).
  - reflexivity.
  - reflexivity.
  - reflexivity.
  - reflexivity.
  - discriminate.
Defined.

(** ** The URLs the helpers ask for *)

Lemma prefix_app_l n : forall a c, prefix n a = true -> prefix n (a ++ c)%string = true.
Proof.
  induction n as [|x n IH]; intros a c H; [destruct (a ++ c)%string; reflexivity|].
  destruct a as [|y a]; [discriminate|]. cbn [prefix append] in *.
  destruct (ascii_dec x y); [now apply IH | discriminate].
Qed.

Lemma prefix_self_app n : forall c, prefix n (n ++ c)%string = true.
Proof.
  induction n as [|x n IH]; intros c; [destruct c; reflexivity|].
  cbn [prefix append]. destruct (ascii_dec x x); [apply IH | contradiction].
Qed.

Lemma includes_app_l a : forall n c,
  n <> EmptyString -> includes a n = true -> includes (a ++ c)%string n = true.
Proof.
  unfold includes. induction a as [|b a IH]; intros n c Hne H.
  - destruct n; [contradiction | discriminate].
  - cbn [append index] in *.
    destruct (prefix n (String b a)) eqn:Hp.
    + change (String b (a ++ c)%string) with (String b a ++ c)%string.
      now rewrite (prefix_app_l n (String b a) c Hp).
    + destruct (prefix n (String b (a ++ c)%string)); [reflexivity|].
      specialize (IH n c Hne).
      destruct (index 0 n a); [|discriminate].
      destruct (index 0 n (a ++ c)%string); [reflexivity | now apply IH].
Qed.

Lemma includes_app_mid a : forall n c,
  n <> EmptyString -> includes (a ++ n ++ c)%string n = true.
Proof.
  unfold includes. induction a as [|b a IH]; intros n c Hne.
  - cbn [append]. destruct n as [|x n]; [contradiction|].
    change (String x n ++ c)%string with (String x (n ++ c)%string).
    cbn [index].
    change (String x (n ++ c)%string) with (String x n ++ c)%string.
    now rewrite prefix_self_app.
  - cbn [append index].
    destruct (prefix n (String b (a ++ n ++ c)%string)); [reflexivity|].
    specialize (IH n c Hne).
    destruct (index 0 n (a ++ n ++ c)%string); [reflexivity | exact IH].
Qed.

(** X9.  Whatever the reply, [postSignature] makes exactly one request,
    a POST of the serialised body.  Its URL is the endpoint, taken
    under the API root unless it starts with [http], followed by
    [signature=<signature>] as the last query parameter: behind a [&]
    when the endpoint has a query already, behind a [?] otherwise; so
    the URL always has a query part. *)
Theorem postSignature_request :
  forall U (w : World U) endpoint signature body,
    let base := if prefix "http" endpoint then endpoint
                else (RELAY_API_URL ++ endpoint)%string in
    let separator := if includes base "?" then "&" else "?" in
    let url := (base ++ separator ++ "signature=" ++ signature)%string in
    trace (snd (ByoEoaPermit.postSignature endpoint signature body w))
    = trace w ++ [EvFetch "POST" url (Some (JSON_stringify body))]
    /\ includes url "?" = true.
Proof.
  intros U w endpoint signature body base separator url. split.
  - unfold ByoEoaPermit.postSignature, bind, fetch. fold base. fold separator. fold url.
    destruct (incoming w 0%nat) as [res|]; [|reflexivity].
    destruct (ok res); cbn [negb].
    + unfold res_json. destruct (json res); reflexivity.
    + destruct (ByoEoaPermit.error_text (res_json_or_empty res) res); reflexivity.
  - subst url separator. destruct (includes base "?") eqn:Hq.
    + apply includes_app_l; [discriminate | exact Hq].
    + apply includes_app_mid. discriminate.
Qed.

(** *** The request id in the status URL *)

(** A character [encodeURIComponent] leaves in place, or the [%] of an
    escape. *)
Definition url_safe (c : ascii) : bool := uri_unreserved c || Ascii.eqb c "%".

Lemma upper_hex_digit_unreserved k : uri_unreserved (upper_hex_digit k) = true.
Proof.
  destruct k as [|p]; [reflexivity|].
  do 5 (try (destruct p as [p|p|]; try reflexivity)).
Qed.

Lemma encodeURIComponent_safe s :
  forallb url_safe (list_ascii_of_string (encodeURIComponent s)) = true.
Proof.
  induction s as [|c s IH]; [reflexivity|].
  cbn [encodeURIComponent]. destruct (uri_unreserved c) eqn:Hc.
  - cbn [append list_ascii_of_string forallb]. unfold url_safe at 1.
    now rewrite Hc, IH.
  - cbn [append list_ascii_of_string forallb]. unfold url_safe at 1 2 3.
    rewrite !upper_hex_digit_unreserved, IH. reflexivity.
Qed.

(** The value of a hexadecimal digit, and the byte two digits stand
    for: what reads an escape back. *)
Definition hex_value (c : ascii) : N :=
  let n := N_of_ascii c in
  if (n <? 58)%N then (n - 48)%N else (n - 55)%N.

Definition unhex (high low : ascii) : ascii :=
  ascii_of_N (16 * hex_value high + hex_value low).

Lemma unhex_escape c :
  unhex (upper_hex_digit (N_of_ascii c / 16)) (upper_hex_digit (N_of_ascii c mod 16)) = c.
Proof. destruct c as [[] [] [] [] [] [] [] []]; reflexivity. Qed.

Lemma encodeURIComponent_injective s1 : forall s2,
  encodeURIComponent s1 = encodeURIComponent s2 -> s1 = s2.
Proof.
  induction s1 as [|c1 s1 IH]; intros [|c2 s2] H.
  - reflexivity.
  - cbn [encodeURIComponent] in H. destruct (uri_unreserved c2); discriminate.
  - cbn [encodeURIComponent] in H. destruct (uri_unreserved c1); discriminate.
  - cbn [encodeURIComponent] in H.
    destruct (uri_unreserved c1) eqn:H1, (uri_unreserved c2) eqn:H2;
      cbn [append] in H.
    + injection H as -> H. f_equal. now apply IH.
    + injection H as -> _. discriminate.
    + injection H as <- _. discriminate.
    + injection H as Hhigh Hlow H.
      rewrite <- (unhex_escape c1), <- (unhex_escape c2), Hhigh, Hlow.
      f_equal. now apply IH.
Qed.

Lemma append_cancel_l p : forall a b, (p ++ a)%string = (p ++ b)%string -> a = b.
Proof.
  induction p as [|c p IH]; intros a b H; [exact H|].
  cbn [append] in H. injection H as H. now apply IH.
Qed.

Lemma getStatus_of_trace {U} app rid (w : World U) :
  trace (snd (getStatus_of app rid w)) = trace w ++ [request rid].
Proof.
  destruct (answer (incoming w 0%nat)) as [j|] eqn:Hans.
  - now rewrite (getStatus_of_answer app rid w j Hans).
  - now rewrite (getStatus_of_error app rid w Hans).
Qed.

(** X10.  [getStatus] of the web applications asks for one URL, the
    status endpoint followed by the request id escaped by
    [encodeURIComponent]: after [requestId=] come only unreserved
    characters and [%] escapes, so nothing in a request id can add a
    parameter or cut the URL short, and two different request ids never
    lead to the same URL. *)
Theorem getStatus_url_escapes_request_id :
  (forall U app rid (w : World U),
      exists query,
        trace (snd (getStatus_of app rid w))
        = trace w ++ [EvFetch "GET"
                        ("https://api.relay.link/intents/status/v3?requestId=" ++ query)%string
                        None]
        /\ forallb url_safe (list_ascii_of_string query) = true)
  /\
  (forall U app rid rid' (w : World U),
      trace (snd (getStatus_of app rid w)) = trace (snd (getStatus_of app rid' w)) ->
      rid = rid').
Proof.
  split.
  - intros U app rid w. exists (encodeURIComponent rid). split.
    + apply getStatus_of_trace.
    + apply encodeURIComponent_safe.
  - intros U app rid rid' w H. rewrite !getStatus_of_trace in H.
    apply app_inv_head in H. unfold request, status_url in H.
    assert (Hurl : forall a b : string, [EvFetch "GET" a None] = [EvFetch "GET" b None]
                                        -> a = b) by (intros a b [= ->]; reflexivity).
    apply Hurl in H. do 2 apply append_cancel_l in H.
    now apply encodeURIComponent_injective.
Qed.

Lemma getStatus_url_escapes_request_id_witness : "0xa&b" = "0xa&b".
Proof.
  refine (proj2 getStatus_url_escapes_request_id nat origin_subsidy "0xa&b" "0xa&b"
            (always (status_body "pending")) _).
  reflexivity.
Defined.

(** ** Packing gas values: [smart-account.ts] of 4337-gasless

    [packUint128] builds its word with bigint operators and hands it to
    viem's [toHex] and [pad], which are library code: they are taken as
    given, with whatever they return or throw.

<<
  const packed = (high << 128n) | low;
  return pad(toHex(packed), { size: 32 });
>>
*)
Module SmartAccount.
Section WithViem.
Context {E : Type}.
Variable toHex : Z -> E + string.
Variable pad : string -> Z -> E + string.

Definition packed (high low : Z) : Z := Z.lor (Z.shiftl high 128) low.

Definition packUint128 (high low : Z) : E + string :=
  match toHex (packed high low) with
  | inl e => inl e
  | inr hex => pad hex 32
  end.

Definition packAccountGasLimits (verificationGasLimit callGasLimit : Z) : E + string :=
  packUint128 verificationGasLimit callGasLimit.

Definition packGasFees (maxPriorityFeePerGas maxFeePerGas : Z) : E + string :=
  packUint128 maxPriorityFeePerGas maxFeePerGas.

End WithViem.
End SmartAccount.

Lemma packed_low_bits high low :
  Z.land (SmartAccount.packed high low) (Z.ones 128) = low mod 2 ^ 128.
Proof.
  unfold SmartAccount.packed.
  rewrite Z.land_lor_distr_l, !Z.land_ones by lia.
  rewrite Z.shiftl_mul_pow2, Z.mod_mul by lia.
  apply Z.lor_0_l.
Qed.

Lemma packed_high_bits high low :
  Z.shiftr (SmartAccount.packed high low) 128 = Z.lor high (Z.shiftr low 128).
Proof.
  unfold SmartAccount.packed.
  rewrite Z.shiftr_lor, Z.shiftr_shiftl_l, Z.sub_diag by lia.
  reflexivity.
Qed.

Lemma shiftr_128_small low : 0 <= low < 2 ^ 128 -> Z.shiftr low 128 = 0.
Proof.
  intros H. rewrite Z.shiftr_div_pow2 by lia. apply Z.div_small. exact H.
Qed.

Lemma packed_sum high low :
  0 <= low < 2 ^ 128 -> SmartAccount.packed high low = high * 2 ^ 128 + low.
Proof.
  intros H. unfold SmartAccount.packed.
  assert (Hdisjoint : Z.land (Z.shiftl high 128) low = 0).
  { apply Z.bits_inj'. intros n Hn. rewrite Z.land_spec, Z.bits_0.
    destruct (Z.ltb_spec n 128).
    - rewrite Z.shiftl_spec_low by lia. reflexivity.
    - rewrite (Z.bits_above_log2 low n), andb_false_r; [reflexivity | lia |].
      destruct (Z.eq_dec low 0) as [->|Hne]; [cbn; lia|].
      apply Z.lt_le_trans with 128; [|lia].
      apply Z.log2_lt_pow2; lia. }
  rewrite <- Z.lxor_lor, <- Z.add_nocarry_lxor by exact Hdisjoint.
  now rewrite Z.shiftl_mul_pow2 by lia.
Qed.

(** X11.  For a [low] that fits in 128 bits, the word packed by
    [packUint128] holds both values apart: shifting it right by 128
    gives [high] back and its low 128 bits are [low], so two different
    pairs are never packed into one word; and when [high] fits in 128
    bits too, the word fits the 32 bytes it is padded to. *)
Theorem packed_word_keeps_both_halves :
  forall high low,
    0 <= low < 2 ^ 128 ->
    Z.shiftr (SmartAccount.packed high low) 128 = high
    /\ Z.land (SmartAccount.packed high low) (Z.ones 128) = low
    /\ (forall high' low',
           0 <= low' < 2 ^ 128 ->
           SmartAccount.packed high low = SmartAccount.packed high' low' ->
           high = high' /\ low = low')
    /\ (0 <= high < 2 ^ 128 -> 0 <= SmartAccount.packed high low < 2 ^ 256).
Proof.
  intros high low Hlow.
  assert (Hh : forall h l, 0 <= l < 2 ^ 128 -> Z.shiftr (SmartAccount.packed h l) 128 = h).
  { intros h l Hl. rewrite packed_high_bits, shiftr_128_small by exact Hl.
    apply Z.lor_0_r. }
  assert (Hl : forall h l, 0 <= l < 2 ^ 128 ->
                           Z.land (SmartAccount.packed h l) (Z.ones 128) = l).
  { intros h l Hl. rewrite packed_low_bits. apply Z.mod_small. exact Hl. }
  repeat split; auto.
  - rewrite <- (Hh high low Hlow), <- (Hh high' low' H). now rewrite H0.
  - rewrite <- (Hl high low Hlow), <- (Hl high' low' H). now rewrite H0.
  - rewrite packed_sum by exact Hlow. nia.
  - rewrite packed_sum by exact Hlow.
    change (2 ^ 256) with (2 ^ 128 * 2 ^ 128). nia.
Qed.

Lemma packed_word_keeps_both_halves_witness :
  Z.shiftr (SmartAccount.packed 500000 500000) 128 = 500000.
Proof.
  refine (proj1 (packed_word_keeps_both_halves 500000 500000 _)).
  lia.
Defined.

(** X12.  [packUint128] does not mask [low]: the bits of [low] from
    bit 128 up are or-ed into [high].  Whatever [toHex] and [pad] do,
    packing [high] and [low] gives what packing
    [high | (low >> 128)] and the low 128 bits of [low] gives; a [low]
    of [2^128] is packed like a [high] of 1. *)
Theorem packUint128_does_not_mask_low :
  forall E (toHex : Z -> E + string) (pad : string -> Z -> E + string) high low,
    SmartAccount.packUint128 toHex pad high low
    = SmartAccount.packUint128 toHex pad
        (Z.lor high (Z.shiftr low 128)) (Z.land low (Z.ones 128))
    /\ SmartAccount.packUint128 toHex pad 0 (2 ^ 128)
       = SmartAccount.packUint128 toHex pad 1 0.
Proof.
  intros E toHex pad high low. split; [|reflexivity].
  unfold SmartAccount.packUint128.
  replace (SmartAccount.packed (Z.lor high (Z.shiftr low 128)) (Z.land low (Z.ones 128)))
    with (SmartAccount.packed high low); [reflexivity|].
  unfold SmartAccount.packed.
  rewrite Z.shiftl_lor, <- Z.lor_assoc. f_equal.
  apply Z.bits_inj'. intros n Hn.
  rewrite Z.lor_spec, Z.land_spec.
  destruct (Z.ltb_spec n 128).
  - rewrite Z.shiftl_spec_low, Z.ones_spec_low by lia.
    now rewrite andb_true_r.
  - rewrite Z.shiftl_spec, Z.shiftr_spec, Z.ones_spec_high by lia.
    rewrite andb_false_r, orb_false_r. f_equal. lia.
Qed.

(** ** MultiSend packing: [encodeMultiSendData] of the Safe flow of
    origin-subsidy

    viem's [encodePacked] is library code and is taken as given.

<<
  const parts: Hex[] = [];
  for (const tx of txs) {
    const dataBytes = tx.data === "0x" ? "0x" : tx.data;
    const dataLength = BigInt(
      dataBytes === "0x" ? 0 : (dataBytes.length - 2) / 2,
    );
    parts.push(encodePacked([...], [tx.operation, tx.to, tx.value, dataLength, dataBytes]));
  }
  return parts.reduce((acc, part, i) =>
    i === 0 ? part : (`${acc}${part.slice(2)}` as Hex),
  );
>>
*)
Module SafeFlow.

Record MetaTransaction : Type := mkMetaTransaction {
  to : string;
  value : Z;
  data : string;
  operation : Z
}.

(** How the function can fail: [BigInt] of a number that is not an
    integer, [reduce] of an empty array without initial value, or what
    the library throws. *)
Inductive Failure (E : Type) : Type :=
| RangeError
| EmptyReduce
| Library (e : E).
Arguments RangeError {E}.
Arguments EmptyReduce {E}.
Arguments Library {E}.

(** [part.slice(2)] *)
Definition slice2 (s : string) : string :=
  match s with
  | String _ (String _ rest) => rest
  | _ => EmptyString
  end.

(** [BigInt(dataBytes === "0x" ? 0 : (dataBytes.length - 2) / 2)] *)
Definition dataLength (dataBytes : string) : option Z :=
  if (dataBytes =? "0x")%string then Some 0
  else
    let doubled := Z.of_nat (String.length dataBytes) - 2 in
    if Z.even doubled then Some (doubled / 2) else None.

Section WithViem.
Context {E : Type}.
Variable encodePacked : Z -> string -> Z -> Z -> string -> E + string.

Fixpoint encode_parts (txs : list MetaTransaction) : Failure E + list string :=
  match txs with
  | [] => inr []
  | tx :: rest =>
      let dataBytes := if (data tx =? "0x")%string then "0x" else data tx in
      match dataLength dataBytes with
      | None => inl RangeError
      | Some len =>
          match encodePacked (operation tx) (to tx) (value tx) len dataBytes with
          | inl e => inl (Library e)
          | inr part =>
              match encode_parts rest with
              | inl e => inl e
              | inr parts => inr (part :: parts)
              end
          end
      end
  end.

(** [reduce] without an initial value starts from the first part and
    calls back from index 1 on. *)
Definition encodeMultiSendData (txs : list MetaTransaction) : Failure E + string :=
  match encode_parts txs with
  | inl e => inl e
  | inr [] => inl EmptyReduce
  | inr (first :: rest) =>
      inr (fold_left (fun acc part => (acc ++ slice2 part)%string) rest first)
  end.

End WithViem.
End SafeFlow.

Lemma append_empty_r (s : string) : (s ++ EmptyString)%string = s.
Proof. induction s as [|c s IH]; cbn [append]; congruence. Qed.

Lemma append_assoc (a b c : string) : ((a ++ b) ++ c)%string = (a ++ b ++ c)%string.
Proof. induction a as [|x a IH]; cbn [append]; congruence. Qed.

Lemma fold_left_append parts : forall acc,
  fold_left (fun acc part => (acc ++ SafeFlow.slice2 part)%string) parts acc
  = (acc ++ fold_left (fun acc part => (acc ++ SafeFlow.slice2 part)%string)
                      parts EmptyString)%string.
Proof.
  induction parts as [|p parts IH]; intros acc; cbn [fold_left].
  - now rewrite append_empty_r.
  - rewrite IH, (IH (EmptyString ++ _)%string). cbn [append].
    now rewrite append_assoc.
Qed.

Lemma slice2_append a b :
  prefix "0x" a = true -> SafeFlow.slice2 (a ++ b) = (SafeFlow.slice2 a ++ b)%string.
Proof.
  destruct a as [|x [|y a]]; cbn [prefix]; intros H.
  - discriminate.
  - destruct (ascii_dec "0" x); discriminate.
  - reflexivity.
Qed.

Lemma dataBytes_same d : (if (d =? "0x")%string then "0x" else d) = d.
Proof. destruct (String.eqb_spec d "0x"); congruence. Qed.

Section MultiSendFacts.
Context {E : Type}.
Variable encodePacked : Z -> string -> Z -> Z -> string -> E + string.

Lemma encode_parts_app txs1 : forall txs2 parts1 parts2,
  SafeFlow.encode_parts encodePacked txs1 = inr parts1 ->
  SafeFlow.encode_parts encodePacked txs2 = inr parts2 ->
  SafeFlow.encode_parts encodePacked (txs1 ++ txs2) = inr (parts1 ++ parts2).
Proof.
  induction txs1 as [|tx txs1 IH]; intros txs2 parts1 parts2 H1 H2.
  - cbn in H1. injection H1 as <-. exact H2.
  - cbn [SafeFlow.encode_parts app] in *.
    destruct (SafeFlow.dataLength _) as [len|]; [|discriminate].
    destruct (encodePacked _ _ _ _ _) as [e|part]; [discriminate|].
    destruct (SafeFlow.encode_parts encodePacked txs1) as [e|parts] eqn:Hparts;
      [discriminate|].
    injection H1 as <-. now rewrite (IH txs2 parts parts2 eq_refl H2).
Qed.

Lemma encode_parts_prefixed txs : forall parts,
  (forall op t v len d h, encodePacked op t v len d = inr h -> prefix "0x" h = true) ->
  SafeFlow.encode_parts encodePacked txs = inr parts ->
  Forall (fun h => prefix "0x" h = true) parts.
Proof.
  induction txs as [|tx txs IH]; intros parts Hlib H.
  - cbn in H. injection H as <-. constructor.
  - cbn [SafeFlow.encode_parts] in H.
    destruct (SafeFlow.dataLength _) as [len|]; [|discriminate].
    destruct (encodePacked _ _ _ _ _) as [e|part] eqn:Hpart; [discriminate|].
    destruct (SafeFlow.encode_parts encodePacked txs) as [e|rest]; [discriminate|].
    injection H as <-. constructor; eauto.
Qed.

End MultiSendFacts.

(** A stand-in for the library packer, for sample runs: the prefix and
    the data bytes. *)
Definition sample_packer (op : Z) (t : string) (v len : Z) (d : string)
    : Empty_set + string :=
  inr ("0x" ++ SafeFlow.slice2 d)%string.

(** X13.  The encoding of a batch is the concatenation of the encodings
    of its parts: when two lists of transactions encode to [h1] and
    [h2], the two lists put together encode to [h1] followed by [h2]
    without its two-character prefix (the library packer returning
    [0x]-prefixed strings). *)
Theorem encodeMultiSendData_concatenates :
  forall E (encodePacked : Z -> string -> Z -> Z -> string -> E + string)
         txs1 txs2 h1 h2,
    (forall op t v len d h, encodePacked op t v len d = inr h -> prefix "0x" h = true) ->
    SafeFlow.encodeMultiSendData encodePacked txs1 = inr h1 ->
    SafeFlow.encodeMultiSendData encodePacked txs2 = inr h2 ->
    SafeFlow.encodeMultiSendData encodePacked (txs1 ++ txs2)
    = inr (h1 ++ SafeFlow.slice2 h2)%string.
Proof.
  intros E encodePacked txs1 txs2 h1 h2 Hlib H1 H2.
  unfold SafeFlow.encodeMultiSendData in *.
  destruct (SafeFlow.encode_parts encodePacked txs1) as [e|[|f1 r1]] eqn:E1;
    try discriminate.
  destruct (SafeFlow.encode_parts encodePacked txs2) as [e|[|f2 r2]] eqn:E2;
    try discriminate.
  rewrite (encode_parts_app encodePacked txs1 txs2 _ _ E1 E2).
  injection H1 as <-. injection H2 as <-.
  pose proof (encode_parts_prefixed encodePacked txs2 _ Hlib E2) as Hpre.
  inversion Hpre as [|? ? Hf2 _]; subst.
  cbn [app]. rewrite fold_left_app. cbn [fold_left].
  rewrite (fold_left_append r2 (_ ++ _)%string), (fold_left_append r2 f2).
  rewrite slice2_append by exact Hf2.
  now rewrite append_assoc.
Qed.

Lemma encodeMultiSendData_concatenates_witness :
  SafeFlow.encodeMultiSendData sample_packer
    ([SafeFlow.mkMetaTransaction "0xaa" 0 "0x095ea7b3" 0]
     ++ [SafeFlow.mkMetaTransaction "0xbb" 0 "0xe8017952" 0])
  = inr ("0x095ea7b3" ++ SafeFlow.slice2 "0xe8017952")%string.
Proof.
  refine (encodeMultiSendData_concatenates Empty_set sample_packer
            [SafeFlow.mkMetaTransaction "0xaa" 0 "0x095ea7b3" 0]
            [SafeFlow.mkMetaTransaction "0xbb" 0 "0xe8017952" 0]
            "0x095ea7b3" "0xe8017952" _ _ _).
  - intros op t v len d h [= <-]. destruct (SafeFlow.slice2 d); reflexivity.
  - reflexivity.
  - reflexivity.
Defined.

Lemma encode_parts_odd_data {E}
    (encodePacked : Z -> string -> Z -> Z -> string -> E + string) before :
  forall parts tx after,
    SafeFlow.encode_parts encodePacked before = inr parts ->
    Z.odd (Z.of_nat (String.length (SafeFlow.data tx))) = true ->
    SafeFlow.encode_parts encodePacked (before ++ tx :: after) = inl SafeFlow.RangeError.
Proof.
  induction before as [|b before IH]; intros parts tx after Hparts Hodd.
  - cbn [app SafeFlow.encode_parts]. rewrite dataBytes_same.
    unfold SafeFlow.dataLength.
    destruct (String.eqb_spec (SafeFlow.data tx) "0x") as [Heq|_].
    + rewrite Heq in Hodd. discriminate.
    + rewrite Z.even_sub, <- Z.negb_odd, Hodd. reflexivity.
  - cbn [app SafeFlow.encode_parts] in *.
    destruct (SafeFlow.dataLength _) as [len|]; [|discriminate].
    destruct (encodePacked _ _ _ _ _) as [e|part]; [discriminate|].
    destruct (SafeFlow.encode_parts encodePacked before) as [e|rest]; [discriminate|].
    now rewrite (IH rest tx after eq_refl Hodd).
Qed.

(** X14.  [encodeMultiSendData] fails on two inputs the types allow: an
    empty list, on which [reduce] has nothing to start from, and a
    transaction whose data has an odd number of characters, on which
    the length is not an integer and [BigInt] throws; the transactions
    after it are not encoded.  When a length is computed it is the
    number of character pairs after the two-character prefix. *)
Theorem encodeMultiSendData_failures :
  forall E (encodePacked : Z -> string -> Z -> Z -> string -> E + string),
    SafeFlow.encodeMultiSendData encodePacked [] = inl SafeFlow.EmptyReduce
    /\ (forall before parts tx after,
           SafeFlow.encode_parts encodePacked before = inr parts ->
           Z.odd (Z.of_nat (String.length (SafeFlow.data tx))) = true ->
           SafeFlow.encodeMultiSendData encodePacked (before ++ tx :: after)
           = inl SafeFlow.RangeError)
    /\ (forall d n,
           SafeFlow.dataLength d = Some n ->
           Z.of_nat (String.length d) = 2 * n + 2).
Proof.
  intros E encodePacked. repeat split.
  - intros before parts tx after Hparts Hodd. unfold SafeFlow.encodeMultiSendData.
    now rewrite (encode_parts_odd_data encodePacked before parts tx after Hparts Hodd).
  - intros d n. unfold SafeFlow.dataLength.
    destruct (String.eqb_spec d "0x") as [->|_].
    + intros [= <-]. reflexivity.
    + destruct (Z.even (Z.of_nat (String.length d) - 2)) eqn:Heven; [|discriminate].
      intros [= <-]. apply Z.even_spec in Heven. destruct Heven as [k Hk].
      rewrite Hk, (Z.mul_comm 2 k), Z.div_mul by lia. lia.
Qed.

Lemma encodeMultiSendData_failures_witness :
  SafeFlow.encodeMultiSendData sample_packer
    ([SafeFlow.mkMetaTransaction "0xaa" 0 "0x095ea7b3" 0]
     ++ SafeFlow.mkMetaTransaction "0xbb" 0 "0xabc" 0
        :: [SafeFlow.mkMetaTransaction "0xcc" 0 "0x" 0])
  = inl SafeFlow.RangeError.
Proof.
  refine (proj1 (proj2 (encodeMultiSendData_failures Empty_set sample_packer))
            [SafeFlow.mkMetaTransaction "0xaa" 0 "0x095ea7b3" 0] ["0x095ea7b3"]
            (SafeFlow.mkMetaTransaction "0xbb" 0 "0xabc" 0)
            [SafeFlow.mkMetaTransaction "0xcc" 0 "0x" 0] _ _).
  - reflexivity.
  - reflexivity.
Defined.

(** ** How the applications show a status

    [StatusDisplay] of origin-subsidy and [FillStatusBadge] of
    byo-eoa-permit colour the status they are given: green for a
    success, red for a failed or refunded fill, yellow for anything
    else.  Both get the statuses that [pollStatus] hands to its callback
    and the one it returns.  Only the colour and, for [StatusDisplay],
    the heading are modelled; the request id and the links to the
    transactions that the components go on to render are left out. *)
Inductive Tone : Type := green | red | yellow.

(** The colour of [StatusDisplay]:
    [isSuccess ? green : isError ? red : yellow], with
    [isSuccess = status.status === "success"] and
    [isError = status.status === "failure" || status.status === "refund"]. *)
Definition StatusDisplay_colour (s : JsValue) : Tone :=
  let isSuccess := strict_eq s "success" in
  let isError := strict_eq s "failure" || strict_eq s "refund" in
  if isSuccess then green else if isError then red else yellow.

(** The box of [StatusDisplay] up to its heading,
    [Status: {status.status.toUpperCase()}]: on a status that is not a
    string the call throws a [TypeError] and nothing is rendered. *)
Definition StatusDisplay_tone (s : JsValue) : Exn + Tone :=
  let colour := StatusDisplay_colour s in
  match s with
  | Some (JStr _) => inr colour
  | _ => inl TypeError
  end.

(** The colour of [FillStatusBadge], for its [status: string]:
    [status === "success" ? green
     : status === "failure" || status === "refunded" ? red : yellow]. *)
Definition FillStatusBadge_tone (status : string) : Tone :=
  let s := Some (JStr status) in
  if strict_eq s "success" then green
  else if strict_eq s "failure" || strict_eq s "refunded" then red
  else yellow.

(** What either application makes of a status that is a string. *)
Definition tone_of (app : WebApp) (status : string) : Exn + Tone :=
  match app with
  | origin_subsidy => StatusDisplay_tone (Some (JStr status))
  | byo_eoa_permit => inr (FillStatusBadge_tone status)
  end.

Lemma tone_of_string app s :
  exists t, tone_of app s = inr t
            /\ (t = yellow <-> set_has (terminal_set app) (Some (JStr s)) = false).
Proof.
  destruct app; cbn [tone_of terminal_set];
    unfold StatusDisplay_tone, StatusDisplay_colour, FillStatusBadge_tone,
      OriginSubsidy.TERMINAL, ByoEoaPermit.TERMINAL_STATES;
    cbn [strict_eq set_has existsb]; rewrite orb_false_r; eexists;
    (split; [reflexivity|]);
    destruct (s =? "success")%string, (s =? "failure")%string;
    cbn [orb]; try (split; [discriminate | discriminate]);
    match goal with
    | |- context [(s =? ?lit)%string] =>
        destruct (s =? lit)%string; split; (reflexivity || discriminate)
    end.
Qed.



(** ** The batch executor contract: [BatchExecutor.sol]

    The contract runs as the code of an account ([address(this)], the
    delegating EOA).  It is embedded over the storage of that account
    (the [nonces] mapping) and the state of everything else, which the
    calls of a batch may change; a call may also come back into the
    account and change [nonces].  The hash function and the signature
    recovery of the platform are taken as given.  A transaction that
    reverts leaves no state behind: it is an outcome without a state.
    [executeBatch] is not payable; it is modelled as called without
    value. *)
Module BatchExecutor.

Record Call : Type := mkCall {
  target : Z;
  value : Z;
  data : list Z
}.

Inductive RevertData : Type :=
| Expired
| InvalidNonce
| InvalidSignature
| CallFailed (index : Z)
| Require (message : string)
| Panic (code : Z).

Inductive Log : Type :=
| BatchExecuted (account : Z) (nonce : Z) (numCalls : Z).

(** The block and the account the code runs in. *)
Record Env : Type := mkEnv {
  timestamp : Z;
  chainid : Z;
  this : Z
}.

Definition bytes_of_string (s : string) : list Z :=
  map (fun c => Z.of_N (N_of_ascii c)) (list_ascii_of_string s).

(** A word as its 32 bytes, and 32 bytes as a word (big-endian). *)
Fixpoint word_bytes_from (n : nat) (w : Z) : list Z :=
  match n with
  | O => []
  | S n' => word_bytes_from n' (w / 256) ++ [w mod 256]
  end.

Definition word_bytes (w : Z) : list Z := word_bytes_from 32 w.

Definition word_of_bytes (bs : list Z) : Z :=
  fold_left (fun acc b => acc * 256 + b) bs 0.

(** [abi.encode] of words (values of the static types [bytes32],
    [uint256], [address]) and [abi.encodePacked] of a [bytes32[]]. *)
Definition abi_encode (ws : list Z) : list Z := flat_map word_bytes ws.

Section WithPlatform.
(** The state of the world beyond this account's storage. *)
Context {W : Type}.
Variable keccak256 : list Z -> Z.
Variable ecrecover : Z -> Z -> Z -> Z -> Z.

(** The storage of the account and the rest of the world. *)
Record State : Type := mkState {
  nonces : Z -> Z;
  outside : W
}.

(** [target.call{value: value}(data)]: whether the call succeeded, and
    the state it leaves. *)
Variable external_call : Env -> Call -> State -> bool * State.

Definition DOMAIN_TYPEHASH : Z :=
  keccak256 (bytes_of_string "EIP712Domain(uint256 chainId,address verifyingContract)").

Definition CALL_TYPEHASH : Z :=
  keccak256 (bytes_of_string "Call(address target,uint256 value,bytes data)").

Definition EXECUTE_BATCH_TYPEHASH : Z :=
  keccak256 (bytes_of_string
    "ExecuteBatch(Call[] calls,uint256 nonce,uint256 deadline)Call(address target,uint256 value,bytes data)").

Definition _computeDigest (env : Env) (calls : list Call) (nonce deadline : Z) : Z :=
  let domainSeparator :=
    keccak256 (abi_encode [DOMAIN_TYPEHASH; chainid env; this env]) in
  let callHashes :=
    map (fun c => keccak256 (abi_encode [CALL_TYPEHASH; target c; value c;
                                         keccak256 (data c)])) calls in
  let structHash :=
    keccak256 (abi_encode [EXECUTE_BATCH_TYPEHASH; keccak256 (abi_encode callHashes);
                           nonce; deadline]) in
  keccak256 ([25; 1] ++ word_bytes domainSeparator ++ word_bytes structHash).

Definition _recover (digest : Z) (sig : list Z) : RevertData + Z :=
  if negb (Z.of_nat (List.length sig) =? 65) then inl (Require "invalid sig length")
  else
    let r := word_of_bytes (firstn 32 sig) in
    let s := word_of_bytes (firstn 32 (skipn 32 sig)) in
    let v := nth 64 sig 0 in
    inr (ecrecover digest v r s).

(** The loop over the calls: the state after the last call, or the
    index of the first call that failed. *)
Fixpoint run_calls (env : Env) (calls : list Call) (i : Z) (st : State) : Z + State :=
  match calls with
  | [] => inr st
  | c :: rest =>
      let (success, st') := external_call env c st in
      if success then run_calls env rest (i + 1) st' else inl i
  end.

Inductive Outcome : Type :=
| Reverted (why : RevertData)
| Done (st : State) (logs : list Log).

Definition executeBatch (env : Env) (calls : list Call) (nonce deadline : Z)
    (signature : list Z) (st : State) : Outcome :=
  if timestamp env >? deadline then Reverted Expired
  else
    let currentNonce := nonces st (this env) in
    if negb (nonce =? currentNonce) then Reverted InvalidNonce
    else if 2 ^ 256 <=? currentNonce + 1 then Reverted (Panic 17)
    else
      let st1 := mkState (fun a => if a =? this env then currentNonce + 1
                                   else nonces st a) (outside st) in
      let digest := _computeDigest env calls nonce deadline in
      match _recover digest signature with
      | inl why => Reverted why
      | inr signer =>
          if negb (signer =? this env) then Reverted InvalidSignature
          else
            match run_calls env calls 0 st1 with
            | inl i => Reverted (CallFailed i)
            | inr st2 =>
                Done st2 [BatchExecuted (this env) currentNonce
                                        (Z.of_nat (List.length calls))]
            end
      end.

Definition getNonce (env : Env) (st : State) : Z := nonces st (this env).

End WithPlatform.
End BatchExecutor.

Section BatchExecutorFacts.
Context {W : Type}.
Variable keccak256 : list Z -> Z.
Variable ecrecover : Z -> Z -> Z -> Z -> Z.

Lemma run_calls_nonce_grows
    (external_call : BatchExecutor.Env -> BatchExecutor.Call
                     -> BatchExecutor.State (W:=W) -> bool * BatchExecutor.State (W:=W))
    env calls :
  (forall c s, BatchExecutor.nonces s (BatchExecutor.this env)
               <= BatchExecutor.nonces (snd (external_call env c s))
                                       (BatchExecutor.this env)) ->
  forall i st st',
    BatchExecutor.run_calls external_call env calls i st = inr st' ->
    BatchExecutor.nonces st (BatchExecutor.this env)
    <= BatchExecutor.nonces st' (BatchExecutor.this env).
Proof.
  intros Hgrow. induction calls as [|c rest IH]; intros i st st' Hrun.
  - cbn in Hrun. injection Hrun as <-. lia.
  - cbn [BatchExecutor.run_calls] in Hrun.
    pose proof (Hgrow c st) as Hc.
    destruct (external_call env c st) as [[] st1]; [|discriminate].
    cbn [snd] in Hc. apply IH in Hrun. lia.
Qed.

End BatchExecutorFacts.

(** Stand-ins for the platform, for sample runs: every signature
    recovers to the account 7 and every call succeeds and changes
    nothing. *)
Definition sample_call (env : BatchExecutor.Env) (c : BatchExecutor.Call)
    (s : BatchExecutor.State (W:=unit)) : bool * BatchExecutor.State (W:=unit) :=
  (true, s).

Definition sample_env : BatchExecutor.Env := BatchExecutor.mkEnv 1700000000 8453 7.

Definition sample_state : BatchExecutor.State (W:=unit) :=
  BatchExecutor.mkState (fun _ => 3) tt.

Definition sample_batch : list BatchExecutor.Call :=
  [BatchExecutor.mkCall 11 0 [9; 94; 167; 179]; BatchExecutor.mkCall 12 0 []].

(** X16.  [executeBatch] goes through only when it is authorised: the
    deadline has not passed, the nonce is the one stored for the
    account, the signature has 65 bytes and recovers, on the digest of
    exactly these calls, nonce and deadline, to the account itself.  It
    then logs one [BatchExecuted] with that nonce and the number of
    calls. *)
Theorem executeBatch_only_when_authorised :
  forall W keccak256 ecrecover
         (external_call : BatchExecutor.Env -> BatchExecutor.Call
                          -> BatchExecutor.State (W:=W) -> bool * BatchExecutor.State (W:=W))
         env calls nonce deadline signature st st' logs,
    BatchExecutor.executeBatch keccak256 ecrecover external_call env calls nonce deadline
                               signature st
    = BatchExecutor.Done st' logs ->
    BatchExecutor.timestamp env <= deadline
    /\ nonce = BatchExecutor.getNonce env st
    /\ List.length signature = 65%nat
    /\ ecrecover (BatchExecutor._computeDigest keccak256 env calls nonce deadline)
                 (nth 64 signature 0)
                 (BatchExecutor.word_of_bytes (firstn 32 signature))
                 (BatchExecutor.word_of_bytes (firstn 32 (skipn 32 signature)))
       = BatchExecutor.this env
    /\ logs = [BatchExecutor.BatchExecuted (BatchExecutor.this env) nonce
                                           (Z.of_nat (List.length calls))].
Proof.
  intros W keccak256 ecrecover external_call env calls nonce deadline signature st st' logs.
  unfold BatchExecutor.executeBatch, BatchExecutor._recover, BatchExecutor.getNonce.
  destruct (Z.gtb_spec (BatchExecutor.timestamp env) deadline); [discriminate|].
  destruct (Z.eqb_spec nonce (BatchExecutor.nonces st (BatchExecutor.this env)))
    as [Hnonce|]; cbn [negb]; [|discriminate].
  destruct (Z.leb_spec (2 ^ 256) (BatchExecutor.nonces st (BatchExecutor.this env) + 1));
    [discriminate|].
  destruct (Z.eqb_spec (Z.of_nat (List.length signature)) 65) as [Hlen|];
    cbn [negb]; [|discriminate].
  match goal with
  | |- context [negb (?signer =? BatchExecutor.this env)] =>
      destruct (Z.eqb_spec signer (BatchExecutor.this env)) as [Hsigner|];
        cbn [negb]; [|discriminate]
  end.
  destruct (BatchExecutor.run_calls _ _ _ _ _) as [i|st2]; [discriminate|].
  intros [= <- <-]. rewrite <- Hnonce. repeat split; auto; lia.
Qed.

Lemma executeBatch_only_when_authorised_witness :
  3 = BatchExecutor.getNonce sample_env sample_state.
Proof.
  refine (proj1 (proj2 (executeBatch_only_when_authorised unit (fun _ => 0)
                          (fun _ _ _ _ => 7) sample_call sample_env sample_batch 3
                          1700000300 (repeat 0 65) sample_state
                          (BatchExecutor.mkState (fun a => if a =? 7 then 4 else 3) tt)
                          [BatchExecutor.BatchExecuted 7 3 2] _))).
  vm_compute. reflexivity.
Defined.

(** X17.  A nonce is spent by the batch that uses it.  When the calls
    of the batch do not lower the account's nonce (no code of the
    contract ever does), a batch that went through with nonce [n]
    leaves the account's nonce above [n], and whatever is submitted
    next with nonce [n] for the account (the same batch and signature
    again, or any other) reverts, with [InvalidNonce] unless it has
    expired. *)
Theorem executeBatch_spends_the_nonce :
  forall W keccak256 ecrecover
         (external_call : BatchExecutor.Env -> BatchExecutor.Call
                          -> BatchExecutor.State (W:=W) -> bool * BatchExecutor.State (W:=W))
         env calls nonce deadline signature st st' logs,
    (forall c s, BatchExecutor.nonces s (BatchExecutor.this env)
                 <= BatchExecutor.nonces (snd (external_call env c s))
                                         (BatchExecutor.this env)) ->
    BatchExecutor.executeBatch keccak256 ecrecover external_call env calls nonce deadline
                               signature st
    = BatchExecutor.Done st' logs ->
    nonce < BatchExecutor.getNonce env st'
    /\ forall keccak256' ecrecover' external_call' env' calls' deadline' signature',
         BatchExecutor.this env' = BatchExecutor.this env ->
         BatchExecutor.executeBatch keccak256' ecrecover' external_call' env' calls' nonce
                                    deadline' signature' st'
         = BatchExecutor.Reverted
             (if BatchExecutor.timestamp env' >? deadline'
              then BatchExecutor.Expired else BatchExecutor.InvalidNonce).
Proof.
  intros W keccak256 ecrecover external_call env calls nonce deadline signature st st' logs
         Hgrow Hdone.
  assert (Hspent : nonce < BatchExecutor.getNonce env st').
  { revert Hdone.
    unfold BatchExecutor.executeBatch, BatchExecutor._recover, BatchExecutor.getNonce.
    destruct (_ >? _); [discriminate|].
    destruct (Z.eqb_spec nonce (BatchExecutor.nonces st (BatchExecutor.this env)))
      as [Hnonce|]; cbn [negb]; [|discriminate].
    destruct (_ <=? _); [discriminate|].
    destruct (negb (_ =? 65)); [discriminate|].
    destruct (negb (_ =? BatchExecutor.this env)); [discriminate|].
    destruct (BatchExecutor.run_calls _ _ _ _ _) as [i|st2] eqn:Hrun; [discriminate|].
    intros [= <- _].
    apply (run_calls_nonce_grows external_call env calls Hgrow) in Hrun.
    cbn [BatchExecutor.nonces] in Hrun. rewrite Z.eqb_refl in Hrun. lia. }
  split; [exact Hspent|].
  intros keccak256' ecrecover' external_call' env' calls' deadline' signature' Hthis.
  unfold BatchExecutor.executeBatch.
  destruct (_ >? _); [reflexivity|].
  unfold BatchExecutor.getNonce in Hspent. rewrite Hthis.
  destruct (Z.eqb_spec nonce (BatchExecutor.nonces st' (BatchExecutor.this env)));
    [lia | reflexivity].
Qed.

Lemma executeBatch_spends_the_nonce_witness :
  3 < BatchExecutor.getNonce sample_env
        (BatchExecutor.mkState (W:=unit) (fun a => if a =? 7 then 4 else 3) tt).
Proof.
  refine (proj1 (executeBatch_spends_the_nonce unit (fun _ => 0) (fun _ _ _ _ => 7)
                   sample_call sample_env sample_batch 3 1700000300 (repeat 0 65)
                   sample_state
                   (BatchExecutor.mkState (fun a => if a =? 7 then 4 else 3) tt)
                   [BatchExecutor.BatchExecuted 7 3 2] _ _)).
  - intros c s. cbn. lia.
  - vm_compute. reflexivity.
Defined.

(** X18.  The checks come before the calls: when [executeBatch] reverts
    for any reason other than a failed call (expired, wrong nonce,
    malformed or wrong signature, nonce overflow), it does so whatever
    the calls of the batch would have done, so none of them was made. *)
Theorem executeBatch_checks_before_calls :
  forall W keccak256 ecrecover
         (external_call external_call' :
            BatchExecutor.Env -> BatchExecutor.Call
            -> BatchExecutor.State (W:=W) -> bool * BatchExecutor.State (W:=W))
         env calls nonce deadline signature st why,
    BatchExecutor.executeBatch keccak256 ecrecover external_call env calls nonce deadline
                               signature st
    = BatchExecutor.Reverted why ->
    (forall i, why <> BatchExecutor.CallFailed i) ->
    BatchExecutor.executeBatch keccak256 ecrecover external_call' env calls nonce deadline
                               signature st
    = BatchExecutor.Reverted why.
Proof.
  intros W keccak256 ecrecover external_call external_call' env calls nonce deadline
         signature st why.
  unfold BatchExecutor.executeBatch.
  destruct (_ >? _); [auto|].
  destruct (negb (_ =? _)); [auto|].
  destruct (_ <=? _); [auto|].
  destruct (BatchExecutor._recover _ _ _) as [r|signer]; [auto|].
  destruct (negb (_ =? _)); [auto|].
  destruct (BatchExecutor.run_calls external_call _ _ _ _) as [i|st2]; [|discriminate].
  intros [= <-] Hwhy. now destruct (Hwhy i).
Qed.

Lemma executeBatch_checks_before_calls_witness :
  BatchExecutor.executeBatch (fun _ => 0) (fun _ _ _ _ => 7)
    (fun _ _ s => (false, s)) sample_env sample_batch 2 1700000300 (repeat 0 65)
    sample_state
  = BatchExecutor.Reverted BatchExecutor.InvalidNonce.
Proof.
  refine (executeBatch_checks_before_calls unit (fun _ => 0) (fun _ _ _ _ => 7)
            sample_call (fun _ _ s => (false, s)) sample_env sample_batch 2 1700000300
            (repeat 0 65) sample_state BatchExecutor.InvalidNonce _ _).
  - vm_compute. reflexivity.
  - intros i. discriminate.
Defined.

(** ** Is the account delegated to Calibur?

    The script [gasless-swap.ts] and the web flow [OriginSub4337.tsx]
    both read the code of the account and compare it with the EIP-7702
    designator of Calibur, each in its own way.  The code is a
    hexadecimal string; [toLowerCase] is taken on its ASCII letters. *)
Module Delegation.

Definition CALIBUR_ADDRESS : string := "0x000000009B1D0aF20D8C6d0A44e162d11F9b8f00".

Definition DELEGATION_PREFIX : string := "0xef0100".

Definition lower_char (c : ascii) : ascii :=
  let n := N_of_ascii c in
  if ((65 <=? n) && (n <=? 90))%N then ascii_of_N (n + 32) else c.

Fixpoint toLowerCase (s : string) : string :=
  match s with
  | EmptyString => EmptyString
  | String c rest => String (lower_char c) (toLowerCase rest)
  end.

(** [s.slice(n)] *)
Fixpoint slice (n : nat) (s : string) : string :=
  match n, s with
  | O, _ => s
  | S n', String _ rest => slice n' rest
  | S _, EmptyString => EmptyString
  end.

(** [gasless-swap.ts]:
<<
  const isDelegated =
    code?.toLowerCase().startsWith("0xef0100") &&
    code.slice(8).toLowerCase() === CALIBUR_ADDRESS.slice(2).toLowerCase();
>>
    read for its truth value; [None] is a code that is [undefined]. *)
Definition isDelegated (code : option string) : bool :=
  match code with
  | None => false
  | Some c =>
      prefix "0xef0100" (toLowerCase c)
      && (toLowerCase (slice 8 c) =? toLowerCase (slice 2 CALIBUR_ADDRESS))%string
  end.

Inductive DelegationStatus : Type :=
| checking
| not_delegated
| delegated
| wrong_delegation.

(** [OriginSub4337.tsx], what [setDelegation] gets once the code is
    read:
<<
  if (!code || code === "0x") { setDelegation("not_delegated"); return; }
  const expectedCode = `${DELEGATION_PREFIX}${CALIBUR_ADDRESS.slice(2).toLowerCase()}`;
  if (code.toLowerCase() === expectedCode.toLowerCase()) setDelegation("delegated");
  else setDelegation("wrong_delegation");
>>
*)
Definition delegation_of (code : option string) : DelegationStatus :=
  match code with
  | None => not_delegated
  | Some c =>
      if (c =? EmptyString)%string || (c =? "0x")%string then not_delegated
      else
        let expectedCode :=
          (DELEGATION_PREFIX ++ toLowerCase (slice 2 CALIBUR_ADDRESS))%string in
        if (toLowerCase c =? toLowerCase expectedCode)%string then delegated
        else wrong_delegation
  end.

End Delegation.

Lemma toLowerCase_slice n : forall s,
  Delegation.toLowerCase (Delegation.slice n s)
  = Delegation.slice n (Delegation.toLowerCase s).
Proof.
  induction n as [|n IH]; intros [|c s]; cbn; auto.
Qed.

Lemma prefix_slice p : forall s r,
  (prefix p s = true /\ Delegation.slice (String.length p) s = r) <-> s = (p ++ r)%string.
Proof.
  induction p as [|x p IH]; intros s r.
  - cbn. destruct s; cbn; intuition congruence.
  - destruct s as [|y s]; cbn [prefix String.length Delegation.slice append].
    + split; [intros [H _]; discriminate | discriminate].
    + destruct (ascii_dec x y) as [->|Hne].
      * rewrite IH. split; [now intros -> | now intros [= ->]].
      * split; [intros [H _]; discriminate | intros [= -> _]; contradiction].
Qed.

(** X19.  The script and the web flow agree on when an account is
    delegated to Calibur: the script's [isDelegated] holds exactly when
    the web flow sets the status [delegated]. *)
Theorem delegation_checks_agree :
  forall code,
    Delegation.isDelegated code = true
    <-> Delegation.delegation_of code = Delegation.delegated.
Proof.
  intros [c|]; [|split; discriminate].
  unfold Delegation.isDelegated, Delegation.delegation_of.
  rewrite andb_true_iff, String.eqb_eq, toLowerCase_slice.
  change 8%nat with (String.length "0xef0100").
  rewrite prefix_slice.
  change (Delegation.toLowerCase
            (Delegation.DELEGATION_PREFIX
             ++ Delegation.toLowerCase (Delegation.slice 2 Delegation.CALIBUR_ADDRESS)))
    with ("0xef0100"
          ++ Delegation.toLowerCase (Delegation.slice 2 Delegation.CALIBUR_ADDRESS))%string.
  destruct (String.eqb_spec
              (Delegation.toLowerCase c)
              ("0xef0100"
               ++ Delegation.toLowerCase (Delegation.slice 2 Delegation.CALIBUR_ADDRESS)))
    as [Heq|Hne].
  - split; [intros _ | intros _; exact Heq].
    destruct c as [|x [|y [|z c]]]; try discriminate.
    destruct (String.eqb_spec (String x (String y (String z c))) EmptyString);
      [discriminate|].
    destruct (String.eqb_spec (String x (String y (String z c))) "0x");
      [discriminate | reflexivity].
  - split; [contradiction|].
    destruct ((c =? EmptyString)%string || (c =? "0x")%string); discriminate.
Qed.

Lemma delegation_checks_agree_witness :
  Delegation.delegation_of (Some "0xEF0100000000009b1d0af20d8c6d0a44e162d11f9b8f00")
  = Delegation.delegated.
Proof.
  refine (proj1 (delegation_checks_agree
                   (Some "0xEF0100000000009b1d0af20d8c6d0a44e162d11f9b8f00")) _).
  vm_compute. reflexivity.
Defined.
